(** * bluebook: the contact store (lib/person.py, lib/phonebook.py)

    A shallow embedding of the [Person] and [Phonebook] classes, with
    the properties of the contact directory stated over it.

    Conventions.
    - A Python object of class [Person] lives in a heap, a finite map
      from references to attribute records.  A phonebook holds
      references, so that two contacts with the same attribute values
      are still two objects, as they are in Python ([Person] defines no
      [__eq__], so [==] on contacts is identity).
    - Attribute values are [None] or a [str].
    - Reading the attributes of the object at [r] in the heap [h] is
      [h !!! r].  A directory only holds references to live objects, so
      the default value of [!!!] is never what is read.
    - Exceptions are values of [exn]; an operation returns the exception
      it raised, if any, together with the state it leaves behind. *)

From Stdlib Require Import Ascii.
From stdpp Require Import gmap strings list fin_maps pretty.

Local Open Scope string_scope.
Local Open Scope list_scope.

(** ** Python values and strings *)

(** The values of the attributes of a contact: [None] or a [str]. *)
Inductive pyval : Type :=
  | PyNone
  | PyStr (s : string).

#[global] Instance pyval_eq_dec : EqDecision pyval.
Proof. solve_decision. Defined.

#[global] Instance pyval_inhabited : Inhabited pyval := populate PyNone.

(** Truth value of a string: the empty string is false. *)
Definition str_truthy (s : string) : bool :=
  match s with
  | EmptyString => false
  | String _ _ => true
  end.

(** What a ['{}'] field of [str.format] prints for a value. *)
Definition py_format (v : pyval) : string :=
  match v with
  | PyNone => "None"
  | PyStr s => s
  end.

(** [str.lower], on the ASCII letters; every other character is kept. *)
Definition lower_ascii (c : ascii) : ascii :=
  let n := nat_of_ascii c in
  if (65 <=? n)%nat && (n <=? 90)%nat then ascii_of_nat (n + 32) else c.

Fixpoint lower (s : string) : string :=
  match s with
  | EmptyString => EmptyString
  | String c s' => String (lower_ascii c) (lower s')
  end.

(** [s.startswith(q)]. *)
Fixpoint starts_with (q s : string) : bool :=
  match q, s with
  | EmptyString, _ => true
  | String _ _, EmptyString => false
  | String a q', String b s' => if Ascii.eqb a b then starts_with q' s' else false
  end.

(** [q in s] on strings: [q] occurs in [s] as a contiguous substring. *)
Fixpoint contains (q s : string) : bool :=
  starts_with q s ||
  match s with
  | EmptyString => false
  | String _ s' => contains q s'
  end.

(** ** Exceptions *)

(** The exceptions the two classes can raise.  [ValueError] is what the
    directory raises for a contact that is not found, [KeyError] what a
    record without a required field raises, [DecodeError] stands for the
    parser's own exception ([json.JSONDecodeError], [yaml.YAMLError]),
    [UnboundLocalError] is Python's error for reading a local variable
    that was never assigned, and the last two are the [OSError]s of
    [open]. *)
Inductive exn : Type :=
  | ValueError (msg : string)
  | KeyError (key : string)
  | DecodeError (file_format : string)
  | UnboundLocalError (var : string)
  | FileNotFoundError (filename : string)
  | IsADirectoryError (filename : string).

#[global] Instance exn_eq_dec : EqDecision exn.
Proof. solve_decision. Defined.

(** ** Person (lib/person.py) *)

(** The attributes of a [Person] object, in the order [__init__] assigns
    them.  [full_name] is only ever assigned by [__init__], from
    [str.format], so it is a [str]. *)
Record Person : Type := mkPerson {
  first_name : pyval;
  last_name : pyval;
  phone : pyval;
  address : pyval;
  full_name : string
}.

#[global] Instance Person_eq_dec : EqDecision Person.
Proof. solve_decision. Defined.

(** The attribute values [Person.__init__] gives a new object. *)
Definition Person_init (first last : pyval) (ph addr : pyval) : Person :=
  {| first_name := first;
     last_name := last;
     phone := ph;
     address := addr;
     full_name := py_format first +:+ " " +:+ py_format last |}.

#[global] Instance Person_inhabited : Inhabited Person :=
  populate (Person_init PyNone PyNone PyNone PyNone).

(** References to objects, and the heap of [Person] objects. *)
Abbreviation ref := positive (only parsing).
Abbreviation heap := (gmap positive Person) (only parsing).

(** Creating an object: a reference no live object has. *)
Definition alloc (p : Person) (h : heap) : ref * heap :=
  let r := fresh (dom h) in (r, <[r := p]> h).

(** [Person(first, last, phone, address)]: a new object on the heap. *)
Definition Person_new (first last ph addr : pyval) (h : heap) : ref * heap :=
  alloc (Person_init first last ph addr) h.

(** A record read from a file: a [dict] from field names to values. *)
Abbreviation record := (gmap string pyval) (only parsing).

(** [data[key]]. *)
Definition dict_getitem (data : record) (key : string) : exn + pyval :=
  match data !! key with
  | Some v => inr v
  | None => inl (KeyError key)
  end.

(** [data.get(key)]. *)
Definition dict_get (data : record) (key : string) : pyval :=
  default PyNone (data !! key).

(** [Person.from_dict(data)]: the arguments are evaluated left to right,
    then the constructor is called. *)
Definition from_dict (data : record) (h : heap) : exn + (ref * heap) :=
  match dict_getitem data "first_name" with
  | inl e => inl e
  | inr first =>
      match dict_getitem data "last_name" with
      | inl e => inl e
      | inr last =>
          inr (Person_new first last (dict_get data "phone") (dict_get data "address") h)
      end
  end.

(** [contact.__dict__]: the attribute dictionary of an object. *)
Definition __dict__ (p : Person) : record :=
  <["first_name" := first_name p]>
  (<["last_name" := last_name p]>
  (<["phone" := phone p]>
  (<["address" := address p]>
  (<["full_name" := PyStr (full_name p)]> ∅)))).

(** ** Phonebook (lib/phonebook.py) *)

Record Phonebook : Type := mkPhonebook {
  contacts : list positive
}.

#[global] Instance Phonebook_eq_dec : EqDecision Phonebook.
Proof. solve_decision. Defined.

(** [Phonebook()]. *)
Definition Phonebook_init : Phonebook := {| contacts := [] |}.

(** [add_contact]: [self.contacts.append(person)]. *)
Definition add_contact (person : ref) (pb : Phonebook) : Phonebook :=
  {| contacts := contacts pb ++ [person] |}.

(** [list.remove(x)]: drops the first item equal to [x]; [None] when
    there is none (Python raises [ValueError]).  On [Person] objects
    [==] is identity, that is equality of references. *)
Fixpoint py_list_remove (x : ref) (l : list positive) : option (list positive) :=
  match l with
  | [] => None
  | y :: l' =>
      if decide (y = x) then Some l'
      else match py_list_remove x l' with
           | Some r => Some (y :: r)
           | None => None
           end
  end.

(** [remove_contact]: [self.contacts.remove(person)]. *)
Definition remove_contact (person : ref) (pb : Phonebook) : option exn * Phonebook :=
  match py_list_remove person (contacts pb) with
  | Some l => (None, {| contacts := l |})
  | None => (Some (ValueError "list.remove(x): x not in list"), pb)
  end.

(** [update_contact]: the [for index, contact in enumerate(...)] loop
    with its [break] and its [else] clause.  [rest] is what is left to
    visit, [index] the position of its head in [cs]. *)
Fixpoint update_loop (h : heap) (person : ref) (index : nat)
    (rest cs : list positive) : option exn * list positive :=
  match rest with
  | [] => (Some (ValueError "Contact not found in the phonebook."), cs)
  | contact :: rest' =>
      if String.eqb (full_name (h !!! contact)) (full_name (h !!! person))
      then (None, <[index := person]> cs)
      else update_loop h person (S index) rest' cs
  end.

Definition update_contact (h : heap) (person : ref) (pb : Phonebook)
    : option exn * Phonebook :=
  let '(e, cs) := update_loop h person 0 (contacts pb) (contacts pb) in
  (e, {| contacts := cs |}).

(** [get_contacts]. *)
Definition get_contacts (pb : Phonebook) : list positive := contacts pb.

(** One disjunct of the test in [search_contacts]:
    [field and query in field.lower()].  [None] and the empty string are
    false, and then the right-hand side is not evaluated. *)
Definition field_matches (query : string) (field : pyval) : bool :=
  match field with
  | PyNone => false
  | PyStr s => str_truthy s && contains query (lower s)
  end.

(** The whole test of [search_contacts] for one contact. *)
Definition contact_matches (query : string) (contact : Person) : bool :=
  field_matches query (first_name contact) ||
  field_matches query (last_name contact) ||
  field_matches query (PyStr (full_name contact)) ||
  field_matches query (phone contact) ||
  field_matches query (address contact).

(** [search_contacts]: the query is lower-cased once, then the loop
    appends every matching contact to [results]. *)
Definition search_contacts (h : heap) (query : string) (pb : Phonebook)
    : list positive :=
  let query := lower query in
  foldl (fun results contact =>
           if contact_matches query (h !!! contact)
           then results ++ [contact] else results)
        [] (contacts pb).

(** ** Files and wire formats *)

(** What [save_to_file] hands to the encoder and [load_from_file] gets
    from the parser: a [dict], in insertion order, from full names to
    records. *)
Abbreviation document := (list (string * gmap string pyval)) (only parsing).

(** [d[key] = value] on an insertion-ordered [dict]: a key that is
    already there keeps its place and gets the new value, a new key goes
    to the end. *)
Fixpoint dict_setitem {V : Type} (key : string) (value : V)
    (d : list (string * V)) : list (string * V) :=
  match d with
  | [] => [(key, value)]
  | (k, v) :: d' =>
      if decide (k = key) then (k, value) :: d'
      else (k, v) :: dict_setitem key value d'
  end.

(** [d.get(key)] on an insertion-ordered [dict]. *)
Fixpoint dict_lookup {V : Type} (key : string) (d : list (string * V)) : option V :=
  match d with
  | [] => None
  | (k, v) :: d' => if decide (k = key) then Some v else dict_lookup key d'
  end.

(** The encoders and parsers are the libraries [json] and [yaml]; the
    phonebook only calls them.  They are taken as an interface: the
    contents of a file are [bytes], an encoder turns a document into
    bytes, and a parser either finds a document in the bytes or rejects
    them ([None]: it raises its decode error).  Inputs a parser accepts
    but that are no mapping of records are outside this interface. *)
Class Codec : Type := {
  bytes : Type;
  empty_file : bytes;
  json_dump : document -> bytes;
  json_load : bytes -> option document;
  yaml_dump : document -> bytes;
  yaml_load : bytes -> option document
}.

(** A path names a regular file or a directory. *)
Inductive node (B : Type) : Type :=
  | File (content : B)
  | Dir.
Arguments File {B} content.
Arguments Dir {B}.

Section Storage.
Context {codec : Codec}.

(** [open(filename, 'w')]: the file is created or truncated. *)
Definition open_w (fs : gmap string (node bytes)) (filename : string)
    : exn + gmap string (node bytes) :=
  match fs !! filename with
  | Some Dir => inl (IsADirectoryError filename)
  | _ => inr (<[filename := File empty_file]> fs)
  end.

(** [open(filename, 'r')] followed by reading the whole file. *)
Definition open_r (fs : gmap string (node bytes)) (filename : string)
    : exn + bytes :=
  match fs !! filename with
  | None => inl (FileNotFoundError filename)
  | Some Dir => inl (IsADirectoryError filename)
  | Some (File content) => inr content
  end.

(** The dictionary comprehension of [save_to_file]:
    [{contact.full_name: contact.__dict__ for contact in self.contacts}]. *)
Definition save_data (h : heap) (pb : Phonebook) : document :=
  foldl (fun data contact =>
           dict_setitem (full_name (h !!! contact)) (__dict__ (h !!! contact)) data)
        [] (contacts pb).

(** [save_to_file]: the file is opened first; a format that is neither
    ['json'] nor ['yaml'] falls through both branches and nothing is
    written. *)
Definition save_to_file (h : heap) (pb : Phonebook) (filename file_format : string)
    (fs : gmap string (node bytes)) : option exn * gmap string (node bytes) :=
  let data := save_data h pb in
  match open_w fs filename with
  | inl e => (Some e, fs)
  | inr fs' =>
      if String.eqb file_format "json"
      then (None, <[filename := File (json_dump data)]> fs')
      else if String.eqb file_format "yaml"
      then (None, <[filename := File (yaml_dump data)]> fs')
      else (None, fs')
  end.

(** The loop of [load_from_file]:
    [for contact_info in data.values(): ... self.contacts.append(contact)].
    A record that [from_dict] rejects stops the loop; the contacts
    appended before it stay. *)
Fixpoint load_loop (values : list (gmap string pyval)) (h : heap) (pb : Phonebook)
    : option exn * heap * Phonebook :=
  match values with
  | [] => (None, h, pb)
  | contact_info :: values' =>
      match from_dict contact_info h with
      | inl e => (Some e, h, pb)
      | inr (contact, h') => load_loop values' h' (add_contact contact pb)
      end
  end.

(** The two branches of [load_from_file] that assign [data].  [inr None]
    is the case where neither ran and [data] is left unassigned. *)
Definition load_data (file_format : string) (content : bytes)
    : exn + option document :=
  if String.eqb file_format "json"
  then match json_load content with
       | Some data => inr (Some data)
       | None => inl (DecodeError "json")
       end
  else if String.eqb file_format "yaml"
  then match yaml_load content with
       | Some data => inr (Some data)
       | None => inl (DecodeError "yaml")
       end
  else inr None.

(** [load_from_file]. *)
Definition load_from_file (filename file_format : string)
    (fs : gmap string (node bytes)) (h : heap) (pb : Phonebook)
    : option exn * heap * Phonebook :=
  match open_r fs filename with
  | inl e => (Some e, h, pb)
  | inr content =>
      match load_data file_format content with
      | inl e => (Some e, h, pb)
      | inr None => (Some (UnboundLocalError "data"), h, pb)
      | inr (Some data) => load_loop data.*2 h pb
      end
  end.

End Storage.

(** What is asked of the two libraries for a round trip: on a document
    with distinct keys, [json] gives back the document it wrote, and
    [yaml] gives back its entries, in some order of the keys. *)
Class CodecLaws (codec : Codec) : Prop := {
  json_round_trip : forall d : document,
    NoDup d.*1 -> json_load (json_dump d) = Some d;
  yaml_round_trip : forall d : document,
    NoDup d.*1 -> exists d', yaml_load (yaml_dump d) = Some d' /\ d' ≡ₚ d
}.

(** A codec to run the operations on: a file holds the document it was
    written from, tagged with the format, [yaml] writing its keys in
    reverse order; anything else is rejected by both parsers. *)
Inductive wire : Type :=
  | Blank
  | Garbage
  | Text (file_format : string) (d : list (string * gmap string pyval)).

Definition wire_codec : Codec := {|
  bytes := wire;
  empty_file := Blank;
  json_dump d := Text "json" d;
  json_load b :=
    match b with
    | Text "json" d => Some d
    | _ => None
    end;
  yaml_dump d := Text "yaml" (reverse d);
  yaml_load b :=
    match b with
    | Text "yaml" d => Some d
    | _ => None
    end
|}.

(** ** The vocabulary of the statements *)

(** The test of the loop of [update_contact], as a proposition: the
    contact has the full name of [person]. *)
Definition same_name (h : heap) (person contact : ref) : Prop :=
  full_name (h !!! contact) = full_name (h !!! person).

(** The match as the specification words it.  The fields a query is
    compared with: *)
Definition searched_fields (p : Person) : list pyval :=
  [first_name p; last_name p; PyStr (full_name p); phone p; address p].

(** a field matches when it is present, not empty, and its lower-cased
    text has the lower-cased query as a substring; *)
Definition spec_field_matches (q : string) (field : pyval) : Prop :=
  exists s, field = PyStr s /\ s <> "" /\
            exists a b, lower s = a +:+ lower q +:+ b.

(** a contact matches when one of its fields does. *)
Definition spec_matches (q : string) (p : Person) : Prop :=
  Exists (spec_field_matches q) (searched_fields p).

(** The full name of the object is one that [__init__] computed: two
    printed values with a space between them. *)
Definition constructed (p : Person) : Prop :=
  exists first last : pyval,
    full_name p = py_format first +:+ " " +:+ py_format last.

(** The four stored fields of a contact, and of a record. *)
Definition fields (p : Person) : pyval * pyval * pyval * pyval :=
  (first_name p, last_name p, phone p, address p).

Definition record_fields (data : gmap string pyval) : pyval * pyval * pyval * pyval :=
  (dict_get data "first_name", dict_get data "last_name",
   dict_get data "phone", dict_get data "address").

(** The contact [from_dict] builds from a record that has both names. *)
Definition person_of_record (data : gmap string pyval) : Person :=
  Person_init (dict_get data "first_name") (dict_get data "last_name")
              (dict_get data "phone") (dict_get data "address").

Definition has_names (data : gmap string pyval) : Prop :=
  is_Some (data !! "first_name") /\ is_Some (data !! "last_name").

(** The dictionary a comprehension [{key(x): value(x) for x in l}]
    builds, started from [d]. *)
Definition comprehension {A V : Type} (key : A -> string) (value : A -> V)
    (d : list (string * V)) (l : list A) : list (string * V) :=
  foldl (fun data x => dict_setitem (key x) (value x) data) d l.

(** ** Directories to run the operations on *)

(** The two objects of the counterexample: the same attribute values at
    two references. *)
Definition john_doe : Person :=
  Person_init (PyStr "John") (PyStr "Doe") (PyStr "123456") (PyStr "123 Main St").

Definition two_johns : gmap positive Person :=
  <[1%positive := john_doe]> (<[2%positive := john_doe]> ∅).

(** A directory of one contact whose four fields are all empty or
    absent. *)
Definition blank_heap : gmap positive Person :=
  (Person_new (PyStr "") (PyStr "") PyNone (PyStr "") ∅).2.

(** The scenario of the specification: two contacts named Jane. *)
Definition jane_smith : positive * gmap positive Person :=
  Person_new (PyStr "Jane") (PyStr "Smith") (PyStr "555-1111") (PyStr "1 Oak St") ∅.

Definition jane_doyle : positive * gmap positive Person :=
  Person_new (PyStr "Jane") (PyStr "Doyle") (PyStr "555-2222") (PyStr "2 Pine St")
             jane_smith.2.

Definition two_janes : Phonebook :=
  add_contact jane_doyle.1 (add_contact jane_smith.1 Phonebook_init).

(** Three objects, the last two with the same names. *)
Definition sam_lee_1 : positive * gmap positive Person :=
  Person_new (PyStr "Sam") (PyStr "Lee") (PyStr "555-0001") PyNone jane_doyle.2.

Definition sam_lee_2 : positive * gmap positive Person :=
  Person_new (PyStr "Sam") (PyStr "Lee") (PyStr "555-0002") (PyStr "9 Elm St")
             sam_lee_1.2.

Definition two_sams : Phonebook :=
  add_contact sam_lee_2.1 (add_contact sam_lee_1.1 Phonebook_init).

(** A file with two records, under keys that are not their names. *)
Definition two_records : list (string * gmap string pyval) :=
  [("a", <["first_name" := PyStr "Ann"]> (<["last_name" := PyStr "Roe"]> ∅));
   ("b", <["first_name" := PyStr "Bob"]> (<["last_name" := PyStr "Poe"]>
          (<["phone" := PyStr "555-3333"]> (<["full_name" := PyStr "ignored"]> ∅))))].

(** ** Further vocabulary *)

(** The object is as [__init__] leaves it: its full name is the one
    computed from its own first and last name. *)
Definition consistent (p : Person) : Prop :=
  full_name p = py_format (first_name p) +:+ " " +:+ py_format (last_name p).

#[global] Instance same_name_dec (h : gmap positive Person) (person contact : positive) :
  Decision (same_name h person contact).
Proof. unfold same_name. apply _. Defined.

(** What [save_data] writes for consistent contacts: under each key, the
    attribute dictionary of an object with that full name. *)
Definition saved_entry (entry : string * gmap string pyval) : Prop :=
  exists p, consistent p /\ entry = (full_name p, __dict__ p).

(** A file of three records, the last of which has no last name. *)
Definition bad_record : gmap string pyval := <["first_name" := PyStr "Cy"]> ∅.

(** ** The command layer (api/bluebook.py) and the display methods *)

(** The terminal: the lines still to be read by [input], and what was
    written so far, one entry per call of [print] or prompt of [input]. *)
Record Console : Type := mkConsole {
  stdin : list string;
  stdout : list string
}.

(** The exceptions of the command layer: the end of the input, an index
    out of the range of a list, [' '.join(None)], or an exception of the
    directory. *)
Inductive api_exn : Type :=
  | EOFError
  | IndexError
  | TypeError
  | Lib (e : exn).

(** [print(text)]. *)
Definition print (text : string) (io : Console) : Console :=
  {| stdin := stdin io; stdout := stdout io ++ [text] |}.

(** [input(prompt)]: the prompt is written, then a line is read;
    [EOFError] when there is none. *)
Definition input (prompt : string) (io : Console) : (api_exn + string) * Console :=
  match stdin io with
  | [] => (inl EOFError, print prompt io)
  | line :: rest => (inr line, {| stdin := rest; stdout := stdout io ++ [prompt] |})
  end.

(** The escape sequences of [config.baseconfig.styling] that are used. *)
Definition ESC : string := String (ascii_of_nat 27) "".
Definition NL : string := String (ascii_of_nat 10) "".

Definition style_CYAN : string := ESC +:+ "[96m".
Definition style_PURPLE : string := ESC +:+ "[0;35m".
Definition style_END : string := ESC +:+ "[0m".
Definition style_ORANGE : string := ESC +:+ "[38;5;208m".
Definition style_GREEN : string := ESC +:+ "[38;5;46m".
Definition style_GREEN1 : string := ESC +:+ "[92m".
Definition style_YELLOW : string := ESC +:+ "[38;5;11m".

(** Truth value of an attribute or argument: [None] and [''] are false. *)
Definition py_truthy (v : pyval) : bool :=
  match v with
  | PyNone => false
  | PyStr s => str_truthy s
  end.

(** [v or ""]. *)
Definition or_empty (v : pyval) : pyval :=
  if py_truthy v then v else PyStr "".

(** [' '.join(words)]. *)
Fixpoint join_space (words : list string) : string :=
  match words with
  | [] => ""
  | [w] => w
  | w :: rest => w +:+ " " +:+ join_space rest
  end.

(** [text.replace('_', ' ')]. *)
Fixpoint replace_underscores (text : string) : string :=
  match text with
  | EmptyString => EmptyString
  | String c rest =>
      String (if Ascii.eqb c "_" then " "%char else c) (replace_underscores rest)
  end.

(** The format [{: >15}]: the text, with spaces before it up to a width
    of fifteen characters. *)
Fixpoint spaces (n : nat) : string :=
  match n with
  | O => ""
  | S n' => String " " (spaces n')
  end.

Definition right_align_15 (text : string) : string :=
  spaces (15 - String.length text) +:+ text.

(** [person.__dict__.items()]: the attributes in the order [__init__]
    assigned them. *)
Definition dict_items (p : Person) : list (string * pyval) :=
  [("first_name", first_name p); ("last_name", last_name p);
   ("phone", phone p); ("address", address p);
   ("full_name", PyStr (full_name p))].

(** One line of [display_contact_info]:
    ['  {: >15} : {}'.format(item.replace('_', ' '), value)]. *)
Definition attribute_line (item : string) (value : pyval) : string :=
  "  " +:+ right_align_15 (replace_underscores item) +:+ " : " +:+ py_format value.

(** [Phonebook.display_contact_info(person, item_number)]. *)
Definition display_contact_info (h : heap) (person : ref) (item_number : option nat)
    (io : Console) : Console :=
  let io := print NL io in
  let io :=
    match item_number with
    | Some n => print (style_GREEN +:+ "Item number: " +:+ pretty n +:+ style_END) io
    | None => io
    end in
  foldl (fun io '(item, value) => print (attribute_line item value) io)
        io (dict_items (h !!! person)).


(** The prompts of [get_target_contact]. *)
Definition choice_prompt : string :=
  NL +:+ style_CYAN +:+ "Which item number would you like to proceed with: "
     +:+ style_END.

Definition confirm_prompt : string :=
  NL +:+ style_ORANGE
     +:+ "Are you sure you want to proceed with this contact? (yes/no):"
     +:+ style_END +:+ " ".

Section Commands.
(** [int(text)] on a line of input: the number read, or [None] where
    Python raises [ValueError]. *)
Variable py_int : string -> option Z.

(** The [while True] loop of [get_target_contact] that asks for an item
    number between 1 and [n]; it ends with the first line that [int]
    reads as such a number. *)
Fixpoint read_choice (n : nat) (lines : list string) (out : list string)
    : (api_exn + Z) * Console :=
  match lines with
  | [] => (inl EOFError, {| stdin := []; stdout := out ++ [choice_prompt] |})
  | line :: rest =>
      let out := out ++ [choice_prompt] in
      match py_int line with
      | Some choice =>
          if (1 <=? choice)%Z && (choice <=? Z.of_nat n)%Z
          then (inr choice, {| stdin := rest; stdout := out |})
          else read_choice n rest (out ++ ["Invalid choice. Please try again."])
      | None => read_choice n rest (out ++ ["Invalid choice. Please try again."])
      end
  end.

(** The test [confirmation.lower() not in ['yes', 'y', 'no', 'n']],
    negated, and the test [confirmation.lower() in ['yes', 'y']]. *)
Definition is_answer (confirmation : string) : bool :=
  bool_decide (lower confirmation ∈ ["yes"; "y"; "no"; "n"]).

Definition is_yes (confirmation : string) : bool :=
  bool_decide (lower confirmation ∈ ["yes"; "y"]).

(** The confirmation of [get_target_contact]: the first [input], then
    the [while] loop that asks again until the answer is one of the four
    words. *)
Fixpoint read_confirmation (lines : list string) (out : list string)
    : (api_exn + string) * Console :=
  match lines with
  | [] => (inl EOFError, {| stdin := []; stdout := out ++ [confirm_prompt] |})
  | confirmation :: rest =>
      let out := out ++ [confirm_prompt] in
      if is_answer confirmation
      then (inr confirmation, {| stdin := rest; stdout := out |})
      else read_confirmation rest
             (out ++ [style_PURPLE +:+ "Not a valid entry!" +:+ style_END])
  end.

(** The [for i, contact in enumerate(contacts, start=1)] loop. *)
Fixpoint display_numbered (h : heap) (i : nat) (l : list positive) (io : Console)
    : Console :=
  match l with
  | [] => io
  | contact :: l' =>
      display_numbered h (S i) l' (display_contact_info h contact (Some i) io)
  end.

(** The choice of [get_target_contact] among the contacts found, of
    which there is one at least: the only one, or the one whose item
    number is read. *)
Definition choose_contact (h : heap) (found : list positive) (first : positive)
    (io : Console) : (api_exn + positive) * Console :=
  if (length found =? 1)%nat
  then (inr first, display_contact_info h first None io)
  else
    let io := print ("Multiple contacts found with the provided name. "
                     +:+ "Please choose one of the followings:") io in
    let io := display_numbered h 1 found io in
    match read_choice (length found) (stdin io) (stdout io) with
    | (inl e, io) => (inl e, io)
    | (inr choice, io) =>
        match found !! Z.to_nat (choice - 1) with
        | Some contact => (inr contact, io)
        | None => (inl IndexError, io)
        end
    end.

(** The end of [get_target_contact]: the contact is returned when the
    answer to the confirmation is [yes] or [y]. *)
Definition confirm_contact (contact : positive) (io : Console)
    : (api_exn + option positive) * Console :=
  match read_confirmation (stdin io) (stdout io) with
  | (inl e, io) => (inl e, io)
  | (inr confirmation, io) =>
      if is_yes confirmation
      then (inr (Some contact), io)
      else (inr None, print "Canceled." io)
  end.

(** [get_target_contact(name_info, phonebook)]: the contact chosen and
    confirmed, or [None]. *)
Definition get_target_contact (h : heap) (pb : Phonebook) (name_info : list string)
    (io : Console) : (api_exn + option positive) * Console :=
  let name := join_space name_info in
  let found := search_contacts h name pb in
  match found with
  | [] => (inr None, print "No contacts found with the provided name." io)
  | first :: _ =>
      match choose_contact h found first io with
      | (inl e, io) => (inl e, io)
      | (inr contact, io) => confirm_contact contact io
      end
  end.

(** The arguments of the command line, as [argparse] gives them: the
    four details are [None] or a string, the three commands with words
    are [None] or the list of the words. *)
Record Namespace : Type := mkNamespace {
  arg_first_name : pyval;
  arg_last_name : pyval;
  arg_phone : pyval;
  arg_address : pyval;
  arg_search : option (list string);
  arg_remove : option (list string);
  arg_update : option (list string)
}.

(** [remove_contact(args, phonebook)]. *)
Definition api_remove_contact (args : Namespace) (h : heap) (pb : Phonebook)
    (io : Console) : option api_exn * Phonebook * Console :=
  match arg_remove args with
  | None => (Some TypeError, pb, io)
  | Some name_info =>
      match get_target_contact h pb name_info io with
      | (inl e, io) => (Some e, pb, io)
      | (inr None, io) => (None, pb, io)
      | (inr (Some contact), io) =>
          match remove_contact contact pb with
          | (Some e, pb') => (Some (Lib e), pb', io)
          | (None, pb') => (None, pb', print "Contact removed successfully!" io)
          end
      end
  end.

(** [search_contacts(args, phonebook)]: the matching contacts are shown
    and returned. *)
Definition api_search_contacts (args : Namespace) (h : heap) (pb : Phonebook)
    (io : Console) : (api_exn + list positive) * Console :=
  match arg_search args with
  | None => (inl TypeError, io)
  | Some name_info =>
      let name := join_space name_info in
      let search_results := search_contacts h name pb in
      match search_results with
      | [] => (inr search_results, print "No matching contacts found." io)
      | _ =>
          let io := print "Matching contacts:" io in
          let io := foldl (fun io contact => display_contact_info h contact None io)
                          io search_results in
          (inr search_results, print NL io)
      end
  end.

(** The two [while] loops of [update_contact], each asking for a pair of
    details until one of the two is not empty. *)
Fixpoint ask_names (lines : list string) (out : list string)
    : (api_exn + string * string) * Console :=
  let out := out ++ [NL +:+ style_GREEN1
                        +:+ "At least one of First or Last name is required!"
                        +:+ style_END] in
  let out1 := out ++ [style_YELLOW +:+ "Enter the updated First name: "
                                     +:+ style_END] in
  match lines with
  | [] => (inl EOFError, {| stdin := []; stdout := out1 |})
  | first :: lines1 =>
      let out2 := out1 ++ [style_YELLOW +:+ "Enter the updated Last name: "
                                          +:+ style_END] in
      match lines1 with
      | [] => (inl EOFError, {| stdin := []; stdout := out2 |})
      | last :: rest =>
          if negb (str_truthy first) && negb (str_truthy last)
          then ask_names rest out2
          else (inr (first, last), {| stdin := rest; stdout := out2 |})
      end
  end.

Fixpoint ask_phone_address (lines : list string) (out : list string)
    : (api_exn + string * string) * Console :=
  let out := out ++ [NL +:+ style_PURPLE
                        +:+ "At least one of Phone or Address is required! "
                        +:+ style_END] in
  let out1 := out ++ [style_CYAN +:+ "Enter the updated phone number: "
                                   +:+ style_END] in
  match lines with
  | [] => (inl EOFError, {| stdin := []; stdout := out1 |})
  | ph :: lines1 =>
      let out2 := out1 ++ [style_CYAN +:+ "Enter the updated address: "
                                        +:+ style_END] in
      match lines1 with
      | [] => (inl EOFError, {| stdin := []; stdout := out2 |})
      | addr :: rest =>
          if negb (str_truthy ph) && negb (str_truthy addr)
          then ask_phone_address rest out2
          else (inr (ph, addr), {| stdin := rest; stdout := out2 |})
      end
  end.

(** The four assignments of [update_contact] to the attributes of the
    contact; [full_name] is not assigned. *)
Definition set_details (first last ph addr : pyval) (p : Person) : Person :=
  {| first_name := or_empty first;
     last_name := or_empty last;
     phone := or_empty ph;
     address := or_empty addr;
     full_name := full_name p |}.

(** [update_contact(args, phonebook)]. *)
Definition api_update_contact (args : Namespace) (h : heap) (pb : Phonebook)
    (io : Console) : option api_exn * gmap positive Person * Phonebook * Console :=
  match
    match arg_update args with
    | None => (inl TypeError, io)
    | Some name_info => get_target_contact h pb name_info io
    end
  with
  | (inl e, io) => (Some e, h, pb, io)
  | (inr None, io) => (None, h, pb, io)
  | (inr (Some contact), io) =>
      let names : (api_exn + pyval * pyval) * Console :=
        if negb (py_truthy (arg_first_name args)) && negb (py_truthy (arg_last_name args))
        then match ask_names (stdin io) (stdout io) with
             | (inl e, io) => (inl e, io)
             | (inr (first, last), io) => (inr (PyStr first, PyStr last), io)
             end
        else (inr (arg_first_name args, arg_last_name args), io) in
      match names with
      | (inl e, io) => (Some e, h, pb, io)
      | (inr (first, last), io) =>
          let details : (api_exn + pyval * pyval) * Console :=
            if negb (py_truthy (arg_phone args)) && negb (py_truthy (arg_address args))
            then match ask_phone_address (stdin io) (stdout io) with
                 | (inl e, io) => (inl e, io)
                 | (inr (ph, addr), io) => (inr (PyStr ph, PyStr addr), io)
                 end
            else (inr (arg_phone args, arg_address args), io) in
          match details with
          | (inl e, io) => (Some e, h, pb, io)
          | (inr (ph, addr), io) =>
              let h' := <[contact := set_details first last ph addr (h !!! contact)]> h in
              match update_contact h' contact pb with
              | (Some e, pb') => (Some (Lib e), h', pb', io)
              | (None, pb') => (None, h', pb', print "Contact updated successfully!" io)
              end
          end
      end
  end.

(** One conditional prompt of [add_contact]:
    [if not value: value = input(prompt)]. *)
Definition ask_if_missing (prompt : string) (value : pyval) (io : Console)
    : (api_exn + pyval) * Console :=
  if py_truthy value then (inr value, io)
  else match input prompt io with
       | (inl e, io) => (inl e, io)
       | (inr line, io) => (inr (PyStr line), io)
       end.

(** One of the two prompt blocks of [add_contact]: both details are
    asked for when neither is there. *)
Definition ask_pair (prompt1 prompt2 : string) (v1 v2 : pyval) (io : Console)
    : (api_exn + pyval * pyval) * Console :=
  if negb (py_truthy v1) && negb (py_truthy v2)
  then match ask_if_missing prompt1 v1 io with
       | (inl e, io) => (inl e, io)
       | (inr v1, io) =>
           match ask_if_missing prompt2 v2 io with
           | (inl e, io) => (inl e, io)
           | (inr v2, io) => (inr (v1, v2), io)
           end
       end
  else (inr (v1, v2), io).

(** The [while True] loop of [add_contact].  [fuel] bounds the number of
    passes; [None] is a run that needs more. *)
Fixpoint add_loop (fuel : nat) (first last ph addr : pyval) (io : Console)
    : option ((api_exn + pyval * pyval * pyval * pyval) * Console) :=
  match fuel with
  | O => None
  | S fuel' =>
      match ask_pair (style_CYAN +:+ "Enter the First name: " +:+ style_END)
                     (style_CYAN +:+ "Enter the Last name: " +:+ style_END)
                     first last io with
      | (inl e, io) => Some (inl e, io)
      | (inr (first, last), io) =>
          match ask_pair (style_CYAN +:+ "Enter the Phone number: " +:+ style_END)
                         (style_CYAN +:+ "Enter the Address: " +:+ style_END)
                         ph addr io with
          | (inl e, io) => Some (inl e, io)
          | (inr (ph, addr), io) =>
              if (py_truthy first || py_truthy last) && (py_truthy ph || py_truthy addr)
              then Some (inr (first, last, ph, addr), io)
              else add_loop fuel' first last ph addr
                     (print (style_ORANGE
                             +:+ "Either a First or Last name along with at least a phone number or an address "
                             +:+ "is required. Please try again!{style['END']}") io)
          end
      end
  end.

(** [add_contact(args, phonebook)].  A pass that does not end the loop
    has read two lines at least, so one pass more than there are lines
    is enough fuel. *)
Definition api_add_contact (args : Namespace) (h : heap) (pb : Phonebook)
    (io : Console)
    : option (option api_exn * gmap positive Person * Phonebook * Console) :=
  match add_loop (S (length (stdin io))) (arg_first_name args) (arg_last_name args)
                 (arg_phone args) (arg_address args) io with
  | None => None
  | Some (inl e, io) => Some (Some e, h, pb, io)
  | Some (inr (first, last, ph, addr), io) =>
      let '(person, h') :=
        Person_new (or_empty first) (or_empty last) (or_empty ph) (or_empty addr) h in
      Some (None, h', add_contact person pb, print "Contact added successfully!" io)
  end.

End Commands.

(** [generate_contacts_html(phonebook)]. *)
Definition contact_html (p : Person) : string :=
  "<div>" +:+ NL
  +:+ "<h2>" +:+ full_name p +:+ "</h2>" +:+ NL
  +:+ "<p>First Name: " +:+ py_format (first_name p) +:+ "</p>" +:+ NL
  +:+ "<p>Last Name: " +:+ py_format (last_name p) +:+ "</p>" +:+ NL
  +:+ "<p>Phone: " +:+ py_format (phone p) +:+ "</p>" +:+ NL
  +:+ "<p>Address: " +:+ py_format (address p) +:+ "</p>" +:+ NL
  +:+ "</div>" +:+ NL.

Definition generate_contacts_html (h : heap) (pb : Phonebook) : string :=
  foldl (fun html contact => html +:+ contact_html (h !!! contact))
        ("<html>" +:+ NL +:+ "<head>" +:+ NL
         +:+ "<title>Contact Information</title>" +:+ NL
         +:+ "</head>" +:+ NL +:+ "<body>" +:+ NL)
        (contacts pb)
  +:+ "</body>" +:+ NL +:+ "</html>".

(** A reader of decimal numerals, to run the commands with: the digits
    [0] to [9] only. *)
Fixpoint digits_value (acc : Z) (text : string) : option Z :=
  match text with
  | EmptyString => Some acc
  | String c rest =>
      let n := nat_of_ascii c in
      if (48 <=? n)%nat && (n <=? 57)%nat
      then digits_value (10 * acc + Z.of_nat (n - 48)) rest
      else None
  end.

Definition digits_int (text : string) : option Z :=
  match text with
  | EmptyString => None
  | _ => digits_value 0 text
  end.

(** Command lines to run the commands on: [-r jane smith], and
    [-u jane smith -f John -l Mcenzy -p 9876543210]. *)
Definition remove_jane : Namespace :=
  {| arg_first_name := PyNone; arg_last_name := PyNone;
     arg_phone := PyNone; arg_address := PyNone;
     arg_search := None; arg_remove := Some ["jane"; "smith"]; arg_update := None |}.

Definition rename_jane : Namespace :=
  {| arg_first_name := PyStr "John"; arg_last_name := PyStr "Mcenzy";
     arg_phone := PyStr "9876543210"; arg_address := PyNone;
     arg_search := None; arg_remove := None; arg_update := Some ["jane"; "smith"] |}.

(** The heap after that update. *)
Definition renamed_heap : gmap positive Person :=
  <[jane_smith.1 := set_details (PyStr "John") (PyStr "Mcenzy") (PyStr "9876543210")
                                PyNone (jane_doyle.2 !!! jane_smith.1)]> jane_doyle.2.

(** * Properties *)

(** ** Strings *)

Lemma append_String (c : ascii) (s t : string) :
  String c s +:+ t = String c (s +:+ t).
Proof. reflexivity. Qed.

Lemma append_empty (t : string) : "" +:+ t = t.
Proof. reflexivity. Qed.

Lemma starts_with_spec (q s : string) :
  starts_with q s = true <-> exists b, s = q +:+ b.
Proof.
  revert s. induction q as [|a q IH]; intros s; simpl.
  - split; [intros _; by exists s | done].
  - destruct s as [|b s].
    + split; [done | intros [t Ht]; discriminate Ht].
    + destruct (Ascii.eqb_spec a b) as [->|Hne].
      * rewrite IH. split; intros [t Ht]; exists t;
          rewrite append_String in *; congruence.
      * split; [done | intros [t Ht]; rewrite append_String in Ht; congruence].
Qed.

(** [contains q s] holds exactly when [s] is some text, then [q], then
    some more text. *)
Lemma contains_spec (q s : string) :
  contains q s = true <-> exists a b, s = a +:+ q +:+ b.
Proof.
  induction s as [|c s IH].
  - simpl. rewrite orb_false_r, starts_with_spec. split.
    + intros [b Hb]. by exists "", b.
    + intros (a & b & Hab). destruct a as [|c a].
      * rewrite append_empty in Hab. by exists b.
      * rewrite append_String in Hab. discriminate Hab.
  - cbn [contains]. rewrite orb_true_iff, starts_with_spec, IH. split.
    + intros [[b Hb] | (a & b & Hab)].
      * by exists "", b.
      * exists (String c a), b. rewrite append_String. by rewrite Hab.
    + intros (a & b & Hab). destruct a as [|c' a].
      * left. rewrite append_empty in Hab. by exists b.
      * right. rewrite append_String in Hab. exists a, b. congruence.
Qed.

Lemma contains_empty (s : string) : contains "" s = true.
Proof. by destruct s. Qed.

Lemma str_truthy_app (a b : string) :
  str_truthy (a +:+ b) = str_truthy a || str_truthy b.
Proof. by destruct a. Qed.

(** ** The heap *)

Lemma alloc_fresh (p : Person) (h : heap) : h !! (alloc p h).1 = None.
Proof. unfold alloc. simpl. apply not_elem_of_dom, is_fresh. Qed.

Lemma alloc_lookup (p : Person) (h : heap) : (alloc p h).2 !! (alloc p h).1 = Some p.
Proof. unfold alloc. simpl. apply lookup_insert_eq. Qed.

Lemma alloc_subseteq (p : Person) (h : heap) : h ⊆ (alloc p h).2.
Proof. unfold alloc. simpl. apply insert_subseteq, not_elem_of_dom, is_fresh. Qed.

(** ** remove_contact *)

Lemma py_list_remove_Some (x : ref) (l : list positive) :
  x ∈ l ->
  exists l1 l2, l = l1 ++ x :: l2 /\ (x ∉ l1) /\ py_list_remove x l = Some (l1 ++ l2).
Proof.
  induction l as [|y l IH]; intros Hin.
  - by apply elem_of_nil in Hin.
  - simpl. destruct (decide (y = x)) as [->|Hne].
    + exists [], l. split_and!; [done | apply not_elem_of_nil | done].
    + apply elem_of_cons in Hin as [Heq | Hin]; [congruence |].
      destruct (IH Hin) as (l1 & l2 & -> & Hnot & ->).
      exists (y :: l1), l2. split_and!; [done | | done].
      rewrite not_elem_of_cons. split; [congruence | done].
Qed.

Lemma py_list_remove_None (x : ref) (l : list positive) :
  x ∉ l -> py_list_remove x l = None.
Proof.
  induction l as [|y l IH]; [done |].
  rewrite not_elem_of_cons. intros [Hne Hnot]. simpl.
  destruct (decide (y = x)); [congruence |]. by rewrite IH.
Qed.

(** C1, as the code has it.  [remove_contact person] removes the first
    element of the directory that is the object [person] itself
    (references are compared, not attribute values), which shortens the
    sequence by exactly one; when [person] is not an element, and so
    always on an empty directory, it raises [ValueError] and the
    directory is left as it was. *)
Theorem remove_contact_by_identity (pb : Phonebook) (person : ref) :
  (person ∈ contacts pb ->
   exists l1 l2,
     contacts pb = l1 ++ person :: l2 /\ (person ∉ l1) /\
     remove_contact person pb = (None, {| contacts := l1 ++ l2 |}) /\
     S (length (l1 ++ l2)) = length (contacts pb)) /\
  (person ∉ contacts pb ->
   remove_contact person pb =
     (Some (ValueError "list.remove(x): x not in list"), pb)) /\
  (contacts pb = [] ->
   remove_contact person pb =
     (Some (ValueError "list.remove(x): x not in list"), pb)).
Proof.
  unfold remove_contact. split_and!.
  - intros Hin. destruct (py_list_remove_Some _ _ Hin) as (l1 & l2 & Heq & Hnot & Hrm).
    exists l1, l2. rewrite Hrm. split_and!; [done..|].
    rewrite Heq, !length_app. simpl. lia.
  - intros Hnot. by rewrite py_list_remove_None.
  - intros Hnil. rewrite py_list_remove_None; [done |].
    rewrite Hnil. apply not_elem_of_nil.
Qed.

(** C1, as the claim states it, fails: the directory holds an element
    whose fields all equal those of the argument, and yet nothing is
    removed and [ValueError] is raised, because the argument is another
    object. *)
Lemma remove_contact_equal_fields_counterexample :
  let pb := {| contacts := [1%positive] |} in
  (exists r, r ∈ contacts pb /\
             (two_johns !!! r : Person) = two_johns !!! 2%positive) /\
  remove_contact 2%positive pb =
    (Some (ValueError "list.remove(x): x not in list"), pb).
Proof.
  split; [| reflexivity].
  exists 1%positive. split; [apply list_elem_of_here | reflexivity].
Qed.

(** ** update_contact *)

Section Update.
Variables (h : gmap positive Person) (person : positive).

Lemma same_name_eqb (contact : positive) :
  String.eqb (full_name (h !!! contact)) (full_name (h !!! person)) = true
  <-> same_name h person contact.
Proof. apply String.eqb_eq. Qed.

Lemma update_loop_found (index : nat) (l1 l2 cs : list positive) (r : positive) :
  Forall (fun c => ~ same_name h person c) l1 ->
  same_name h person r ->
  update_loop h person index (l1 ++ r :: l2) cs
  = (None, <[index + length l1 := person]> cs).
Proof.
  intros Hl1 Hr. revert index.
  induction Hl1 as [|c l1 Hc _ IH]; intros index; simpl.
  - apply same_name_eqb in Hr. rewrite Hr. by rewrite Nat.add_0_r.
  - destruct (String.eqb _ _) eqn:E.
    + apply same_name_eqb in E. contradiction.
    + rewrite IH. do 2 f_equal. lia.
Qed.

Lemma update_loop_not_found (index : nat) (rest cs : list positive) :
  Forall (fun c => ~ same_name h person c) rest ->
  update_loop h person index rest cs
  = (Some (ValueError "Contact not found in the phonebook."), cs).
Proof.
  intros Hrest. revert index.
  induction Hrest as [|c rest Hc _ IH]; intros index; simpl; [done |].
  destruct (String.eqb _ _) eqn:E; [| apply IH].
  apply same_name_eqb in E. contradiction.
Qed.

Lemma first_same_name (l : list positive) :
  Exists (same_name h person) l ->
  exists l1 r l2,
    l = l1 ++ r :: l2 /\ Forall (fun c => ~ same_name h person c) l1 /\ same_name h person r.
Proof.
  induction l as [|c l IH]; intros Hex.
  - by apply Exists_nil in Hex.
  - destruct (decide (full_name (h !!! c) = full_name (h !!! person))) as [Hc|Hc].
    + exists [], c, l. by split_and!.
    + apply Exists_cons in Hex as [Hex|Hex]; [contradiction |].
      destruct (IH Hex) as (l1 & r & l2 & -> & Hl1 & Hr).
      exists (c :: l1), r, l2. split_and!; [done | by constructor | done].
Qed.

(** C2.  When some element of the directory has the full name of
    [person], [update_contact] puts [person] in the place of the first
    such element: the elements before and after it, and so the length,
    are as before.  When no element has that full name it raises
    [ValueError] and the directory is left as it was. *)
Theorem update_contact_by_full_name (pb : Phonebook) :
  (Exists (same_name h person) (contacts pb) ->
   exists l1 r l2,
     contacts pb = l1 ++ r :: l2 /\
     Forall (fun c => ~ same_name h person c) l1 /\ same_name h person r /\
     update_contact h person pb = (None, {| contacts := l1 ++ person :: l2 |}) /\
     length (l1 ++ person :: l2) = length (contacts pb)) /\
  (~ Exists (same_name h person) (contacts pb) ->
   update_contact h person pb
   = (Some (ValueError "Contact not found in the phonebook."), pb)).
Proof.
  unfold update_contact. split.
  - intros Hex. destruct (first_same_name _ Hex) as (l1 & r & l2 & Heq & Hl1 & Hr).
    exists l1, r, l2. split_and!; [done.. | |].
    + rewrite Heq, (update_loop_found 0 l1 l2 _ r Hl1 Hr). simpl.
      rewrite insert_app_r_alt by lia. by rewrite Nat.sub_diag.
    + rewrite Heq, !length_app. done.
  - intros Hnone. rewrite update_loop_not_found; [by destruct pb |].
    apply not_Exists_Forall; [| done].
    intros c. unfold same_name. apply _.
Qed.

End Update.

(** ** search_contacts *)

Lemma str_truthy_iff (s : string) : str_truthy s = true <-> s <> "".
Proof. by destruct s. Qed.

Lemma field_matches_spec (q : string) (field : pyval) :
  field_matches (lower q) field = true <-> spec_field_matches q field.
Proof.
  unfold spec_field_matches. destruct field as [|s]; simpl.
  - split; [done | by intros (s & Hs & _)].
  - rewrite andb_true_iff, str_truthy_iff, contains_spec. split.
    + intros [Hne Hsub]. by exists s.
    + intros (s' & [= <-] & Hne & Hsub). done.
Qed.

Lemma contact_matches_spec (q : string) (p : Person) :
  contact_matches (lower q) p = true <-> spec_matches q p.
Proof.
  unfold contact_matches, spec_matches, searched_fields.
  rewrite !Exists_cons, Exists_nil, !orb_true_iff, !field_matches_spec. tauto.
Qed.

#[global] Instance spec_matches_dec (q : string) (p : Person) :
  Decision (spec_matches q p).
Proof.
  refine (cast_if (decide (contact_matches (lower q) p = true)));
    by rewrite <- contact_matches_spec.
Defined.

(** The loop of [search_contacts] is a filter that keeps the order. *)
Lemma search_loop_filter (P : positive -> Prop) `{!forall r, Decision (P r)}
    (test : positive -> bool) (l acc : list positive) :
  (forall r, test r = true <-> P r) ->
  foldl (fun results contact => if test contact then results ++ [contact] else results)
        acc l
  = acc ++ filter P l.
Proof.
  intros Htest. revert acc. induction l as [|c l IH]; intros acc; simpl.
  - by rewrite filter_nil, app_nil_r.
  - rewrite IH, filter_cons. destruct (test c) eqn:E.
    + apply Htest in E. rewrite decide_True by done. by rewrite <- app_assoc.
    + rewrite decide_False; [done |]. rewrite <- Htest. congruence.
Qed.

(** C5.  [search_contacts] returns, in the order of the directory,
    exactly the contacts one of whose fields (first name, last name,
    full name, phone, address) is present, not empty, and contains the
    query when both are lower-cased.  An absent or empty field matches
    no query.  The function is total: it raises nothing, and its result
    is the empty list when no contact matches. *)
Theorem search_contacts_spec (h : gmap positive Person) (q : string) (pb : Phonebook) :
  search_contacts h q pb
  = filter (fun r => spec_matches q (h !!! r)) (contacts pb) /\
  (forall query, field_matches query PyNone = false /\
                 field_matches query (PyStr "") = false) /\
  (Forall (fun r => ~ spec_matches q (h !!! r)) (contacts pb) ->
   search_contacts h q pb = []).
Proof.
  assert (Hfilter : search_contacts h q pb
                    = filter (fun r => spec_matches q (h !!! r)) (contacts pb)).
  { unfold search_contacts.
    rewrite (search_loop_filter (fun r => spec_matches q (h !!! r))); [done |].
    intros r. apply contact_matches_spec. }
  split_and!; [done | done |].
  intros Hnone. rewrite Hfilter. clear Hfilter.
  induction Hnone as [|c l Hc _ IH]; [done |].
  rewrite filter_cons, decide_False by done. apply IH.
Qed.

Lemma constructed_matches_empty (p : Person) :
  constructed p -> contact_matches (lower "") p = true.
Proof.
  intros (first & last & Hfull). unfold contact_matches.
  assert (field_matches (lower "") (PyStr (full_name p)) = true) as ->.
  { simpl. rewrite contains_empty, andb_true_r, Hfull, !str_truthy_app.
    simpl. by rewrite orb_true_r. }
  by rewrite !orb_true_r.
Qed.

Lemma search_loop_all (test : positive -> bool) (l acc : list positive) :
  Forall (fun r => test r = true) l ->
  foldl (fun results contact => if test contact then results ++ [contact] else results)
        acc l
  = acc ++ l.
Proof.
  intros Hall. revert acc. induction Hall as [|c l Hc _ IH]; intros acc; simpl.
  - by rewrite app_nil_r.
  - rewrite Hc, IH. by rewrite <- app_assoc.
Qed.

(** C6.  On a directory of contacts that [__init__] built, whatever
    their names, phone and address (all four may be empty or [None]),
    the empty query returns every contact, in order. *)
Theorem search_empty_query_returns_all (h : gmap positive Person) (pb : Phonebook) :
  Forall (fun r => constructed (h !!! r)) (contacts pb) ->
  search_contacts h "" pb = contacts pb.
Proof.
  intros Hall. unfold search_contacts.
  rewrite search_loop_all; [done |].
  eapply Forall_impl; [exact Hall |].
  intros r Hr. by apply constructed_matches_empty.
Qed.

Lemma search_empty_query_returns_all_witness :
  Forall (fun r => constructed (blank_heap !!! r)) [1%positive] /\
  search_contacts blank_heap "" {| contacts := [1%positive] |} = [1%positive].
Proof.
  assert (Hall : Forall (fun r => constructed (blank_heap !!! r)) [1%positive]).
  { constructor; [| constructor]. exists (PyStr ""), (PyStr ""). reflexivity. }
  split; [exact Hall |].
  exact (search_empty_query_returns_all blank_heap {| contacts := [1%positive] |} Hall).
Defined.

Example search_jane :
  search_contacts jane_doyle.2 "jane" two_janes = [jane_smith.1; jane_doyle.1].
Proof. vm_compute. reflexivity. Qed.

Example search_doyle :
  search_contacts jane_doyle.2 "doyle" two_janes = [jane_doyle.1].
Proof. vm_compute. reflexivity. Qed.

Example search_upper_case_query :
  search_contacts jane_doyle.2 "SMITH" two_janes = [jane_smith.1].
Proof. vm_compute. reflexivity. Qed.

Example search_no_match :
  search_contacts jane_doyle.2 "zoe" two_janes = [].
Proof. vm_compute. reflexivity. Qed.

(** ** Person *)

Lemma from_dict_ok (data : gmap string pyval) (h : gmap positive Person)
    (first last : pyval) :
  data !! "first_name" = Some first ->
  data !! "last_name" = Some last ->
  from_dict data h
  = inr (alloc (Person_init first last (dict_get data "phone")
                            (dict_get data "address")) h).
Proof.
  intros Hf Hl. unfold from_dict, dict_getitem, Person_new. by rewrite Hf, Hl.
Qed.

(** C7.  [from_dict] raises exactly when the record lacks the key
    [first_name] or the key [last_name], and what it raises is the
    [KeyError] of the first missing key.  Otherwise it returns a new
    object whose first and last name are the record's, and whose phone
    and address are the record's when it has them and [None] when not. *)
Theorem from_dict_spec (data : gmap string pyval) (h : gmap positive Person) :
  ((exists e, from_dict data h = inl e) <->
   data !! "first_name" = None \/ data !! "last_name" = None) /\
  (forall e, from_dict data h = inl e ->
             e = KeyError "first_name" \/ e = KeyError "last_name") /\
  (forall first last,
     data !! "first_name" = Some first ->
     data !! "last_name" = Some last ->
     exists r h' p,
       from_dict data h = inr (r, h') /\
       h !! r = None /\ h' = <[r := p]> h /\
       first_name p = first /\ last_name p = last /\
       phone p = default PyNone (data !! "phone") /\
       address p = default PyNone (data !! "address")).
Proof.
  split_and!.
  - unfold from_dict, dict_getitem.
    destruct (data !! "first_name"), (data !! "last_name"); split;
      try (intros [e He]; discriminate He); try (intros [[=]|[=]]); eauto.
  - intros e. unfold from_dict, dict_getitem.
    destruct (data !! "first_name"), (data !! "last_name"); intros [= <-]; auto.
  - intros first last Hf Hl. rewrite (from_dict_ok _ _ _ _ Hf Hl).
    eexists _, _, _. split; [reflexivity |].
    split_and!; try reflexivity. apply not_elem_of_dom, is_fresh.
Qed.

Example from_dict_without_last_name :
  from_dict (<["first_name" := PyStr "John"]> (<["phone" := PyStr "1"]> ∅)) ∅
  = inl (KeyError "last_name").
Proof. vm_compute. reflexivity. Qed.

Example from_dict_names_only :
  from_dict (<["first_name" := PyStr "John"]> (<["last_name" := PyStr "Doe"]> ∅)) ∅
  = inr (1%positive,
         {[ 1%positive := {| first_name := PyStr "John"; last_name := PyStr "Doe";
                             phone := PyNone; address := PyNone;
                             full_name := "John Doe" |} ]}).
Proof. vm_compute. reflexivity. Qed.

(** C10.  The object the constructor creates has the attributes
    [__init__] assigns; built from two strings, it has the first name, a
    space and the last name as its full name; whatever the
    arguments, the full name has the space in it, and it is the single
    space when both names are empty.  [from_dict] builds the full name
    from the record's first and last name; a [full_name] entry in the
    record changes nothing. *)
Theorem full_name_is_derived :
  (forall (first last ph addr : pyval) (h : gmap positive Person),
     (Person_new first last ph addr h).2 !! (Person_new first last ph addr h).1
     = Some (Person_init first last ph addr)) /\
  (forall (first last : string) (ph addr : pyval),
     full_name (Person_init (PyStr first) (PyStr last) ph addr)
     = first +:+ " " +:+ last) /\
  (forall first last ph addr : pyval,
     exists a b, full_name (Person_init first last ph addr) = a +:+ " " +:+ b) /\
  (forall ph addr : pyval,
     full_name (Person_init (PyStr "") (PyStr "") ph addr) = " ") /\
  (forall (data : gmap string pyval) (h : gmap positive Person) r h'
          (first last : string),
     from_dict data h = inr (r, h') ->
     data !! "first_name" = Some (PyStr first) ->
     data !! "last_name" = Some (PyStr last) ->
     full_name <$> h' !! r = Some (first +:+ " " +:+ last)) /\
  (forall (data : gmap string pyval) (h : gmap positive Person) (v : pyval),
     from_dict (<["full_name" := v]> data) h = from_dict data h).
Proof.
  split_and!.
  - intros first last ph addr h. apply alloc_lookup.
  - reflexivity.
  - intros first last ph addr. by exists (py_format first), (py_format last).
  - reflexivity.
  - intros data h r h' first last Hfrom Hf Hl.
    rewrite (from_dict_ok _ _ _ _ Hf Hl) in Hfrom.
    injection Hfrom as <- <-. unfold alloc. simpl.
    by rewrite lookup_insert_eq.
  - intros data h v. unfold from_dict, dict_getitem, dict_get.
    by rewrite !lookup_insert_ne.
Qed.

(** ** Insertion-ordered dictionaries *)

Section Dict.
Context {V : Type}.
Implicit Types (d : list (string * V)) (k key : string) (v : V).

Lemma dict_setitem_new d key v :
  key ∉ d.*1 -> dict_setitem key v d = d ++ [(key, v)].
Proof.
  induction d as [|[k w] d IH]; simpl; [done |].
  rewrite not_elem_of_cons. intros [Hne Hnot].
  destruct (decide (k = key)); [congruence |]. by rewrite IH.
Qed.

Lemma dict_setitem_keys d key v k :
  k ∈ (dict_setitem key v d).*1 <-> k = key \/ k ∈ d.*1.
Proof.
  induction d as [|[k' w] d IH]; simpl.
  - rewrite list_elem_of_singleton. rewrite elem_of_nil. tauto.
  - destruct (decide (k' = key)) as [->|Hne]; simpl;
      rewrite !elem_of_cons; [tauto |]. rewrite IH. tauto.
Qed.

Lemma dict_setitem_NoDup d key v :
  NoDup d.*1 -> NoDup (dict_setitem key v d).*1.
Proof.
  induction d as [|[k' w] d IH]; simpl.
  - intros _. apply NoDup_singleton.
  - rewrite NoDup_cons. intros [Hnot Hnd].
    destruct (decide (k' = key)) as [->|Hne]; simpl; rewrite NoDup_cons.
    + done.
    + split; [| by apply IH]. rewrite dict_setitem_keys. by intros [?|?].
Qed.

Lemma dict_lookup_setitem d key v k :
  dict_lookup k (dict_setitem key v d)
  = if decide (key = k) then Some v else dict_lookup k d.
Proof.
  induction d as [|[k' w] d IH]; simpl.
  - by destruct (decide (key = k)).
  - destruct (decide (k' = key)) as [->|Hne]; simpl.
    + by destruct (decide (key = k)).
    + rewrite IH. destruct (decide (k' = k)) as [->|]; [| done].
      by rewrite decide_False by congruence.
Qed.

Lemma dict_lookup_None d k : dict_lookup k d = None <-> k ∉ d.*1.
Proof.
  induction d as [|[k' w] d IH]; simpl.
  - split; [intros _; apply not_elem_of_nil | done].
  - rewrite not_elem_of_cons. destruct (decide (k' = k)) as [->|Hne].
    + split; [done | by intros [? _]].
    + rewrite IH. split; [by split | by intros [_ ?]].
Qed.

(** In a dictionary (keys distinct) the entries are the lookups. *)
Lemma dict_lookup_elem_of d k v :
  NoDup d.*1 -> (k, v) ∈ d <-> dict_lookup k d = Some v.
Proof.
  induction d as [|[k' w] d IH]; simpl.
  - intros _. rewrite elem_of_nil. done.
  - rewrite NoDup_cons. intros [Hnot Hnd]. rewrite elem_of_cons.
    destruct (decide (k' = k)) as [->|Hne].
    + split.
      * intros [[= ->] | Hin]; [done |].
        destruct Hnot. apply list_elem_of_fmap. by exists (k, v).
      * intros [= ->]. by left.
    + rewrite <- (IH Hnd). split; [| by right].
      intros [[= ? ?] | Hin]; [congruence | done].
Qed.

End Dict.

Section Comprehension.
Context {A V : Type} (key : A -> string) (value : A -> V).

Lemma comprehension_keys d l k :
  k ∈ (comprehension key value d l).*1 <-> k ∈ d.*1 \/ exists x, x ∈ l /\ key x = k.
Proof.
  unfold comprehension. revert d. induction l as [|x l IH]; intros d; simpl.
  - split; [by left | intros [? | (x & Hx & _)]; [done | by apply elem_of_nil in Hx]].
  - rewrite IH, dict_setitem_keys. split.
    + intros [[-> | ?] | (y & Hy & <-)].
      * right. exists x. split; [apply list_elem_of_here | done].
      * by left.
      * right. exists y. split; [by apply list_elem_of_further | done].
    + intros [? | (y & Hy & <-)]; [left; by right |].
      apply elem_of_cons in Hy as [-> | Hy]; [left; by left |].
      right. by exists y.
Qed.

Lemma comprehension_NoDup d l :
  NoDup d.*1 -> NoDup (comprehension key value d l).*1.
Proof.
  unfold comprehension. revert d. induction l as [|x l IH]; intros d Hd; simpl; [done |].
  apply IH. by apply dict_setitem_NoDup.
Qed.

(** The value of a key is that of the last element with this key. *)
Lemma comprehension_lookup d l k :
  dict_lookup k (comprehension key value d l)
  = match last (filter (fun x => key x = k) l) with
    | Some x => Some (value x)
    | None => dict_lookup k d
    end.
Proof.
  unfold comprehension. revert d. induction l as [|x l IH]; intros d; simpl; [done |].
  rewrite IH, filter_cons, dict_lookup_setitem.
  destruct (decide (key x = k)) as [Hk|Hk].
  - destruct (filter _ l) as [|y l'] eqn:E; [done |].
    change (last (x :: y :: l')) with (last (y :: l')).
    destruct (last (y :: l')) eqn:E'; [done |].
    by apply last_None in E'.
  - done.
Qed.

(** With distinct keys nothing is overwritten: one entry per element,
    in order. *)
Lemma comprehension_distinct d l :
  NoDup (d.*1 ++ (key <$> l)) ->
  comprehension key value d l = d ++ ((fun x => (key x, value x)) <$> l).
Proof.
  unfold comprehension. revert d. induction l as [|x l IH]; intros d Hnd; simpl.
  - by rewrite app_nil_r.
  - simpl in Hnd.
    assert (key x ∉ d.*1) as Hnew.
    { apply NoDup_app in Hnd as (_ & Hdisj & _). intros Hin.
      apply (Hdisj _ Hin), list_elem_of_here. }
    rewrite dict_setitem_new by done. rewrite IH.
    + by rewrite <- app_assoc.
    + rewrite fmap_app. simpl. rewrite <- app_assoc. simpl.
      by rewrite (cons_middle (key x)), app_assoc in Hnd |- *.
Qed.

End Comprehension.

(** ** Records *)

(** The attribute dictionary has the five fields and nothing else. *)
Lemma dict_fields (p : Person) :
  __dict__ p !! "first_name" = Some (first_name p) /\
  __dict__ p !! "last_name" = Some (last_name p) /\
  __dict__ p !! "phone" = Some (phone p) /\
  __dict__ p !! "address" = Some (address p) /\
  __dict__ p !! "full_name" = Some (PyStr (full_name p)) /\
  dom (__dict__ p)
  = {["first_name"; "last_name"; "phone"; "address"; "full_name"]}.
Proof.
  unfold __dict__. split_and!; [by simplify_map_eq.. |].
  rewrite !dom_insert_L, dom_empty_L. set_solver.
Qed.

Lemma dict_has_names (p : Person) : has_names (__dict__ p).
Proof.
  destruct (dict_fields p) as (Hf & Hl & _). split; by eexists.
Qed.

Lemma record_fields_dict (p : Person) : record_fields (__dict__ p) = fields p.
Proof.
  destruct (dict_fields p) as (Hf & Hl & Hp & Ha & _).
  unfold record_fields, fields, dict_get. by rewrite Hf, Hl, Hp, Ha.
Qed.

Lemma from_dict_has_names (data : gmap string pyval) (h : gmap positive Person) :
  has_names data ->
  from_dict data h = inr (alloc (person_of_record data) h).
Proof.
  intros [[first Hf] [last Hl]]. rewrite (from_dict_ok _ _ _ _ Hf Hl).
  unfold person_of_record, dict_get. by rewrite Hf, Hl.
Qed.

(** ** load_from_file and save_to_file *)

Section StorageProperties.
Context {codec : Codec}.

(** On records that all have both names the loop runs to its end: it
    appends one new object per record, in order, and touches no object
    that was there. *)
Lemma load_loop_appends (values : list (gmap string pyval))
    (h : gmap positive Person) (pb : Phonebook) :
  Forall has_names values ->
  exists h' new,
    load_loop values h pb = (None, h', {| contacts := contacts pb ++ new |}) /\
    h ⊆ h' /\ NoDup new /\
    Forall2 (fun r data => h !! r = None /\ h' !! r = Some (person_of_record data))
            new values.
Proof.
  intros Hvalues. revert h pb.
  induction Hvalues as [|data values Hdata _ IH]; intros h pb.
  - exists h, []. rewrite app_nil_r. simpl. destruct pb. by split_and!; try constructor.
  - simpl. rewrite from_dict_has_names by done.
    pose proof (alloc_fresh (person_of_record data) h) as Hfresh.
    pose proof (alloc_lookup (person_of_record data) h) as Hnew.
    pose proof (alloc_subseteq (person_of_record data) h) as Hsub.
    destruct (alloc (person_of_record data) h) as [r h1]. simpl in *.
    destruct (IH h1 (add_contact r pb)) as (h' & new & Hloop & Hsub' & Hnd & Hall).
    exists h', (r :: new). split_and!.
    + rewrite Hloop. simpl. by rewrite <- app_assoc.
    + by transitivity h1.
    + apply NoDup_cons. split; [| done].
      intros Hin. apply list_elem_of_lookup_1 in Hin as [i Hi].
      destruct (Forall2_lookup_l _ _ _ _ _ Hall Hi) as (data' & _ & Hr & _).
      congruence.
    + constructor.
      * split; [done |]. by eapply lookup_weaken.
      * eapply Forall2_impl; [exact Hall |]. intros r' data' [Hr1 Hr2].
        split; [| done]. destruct (h !! r') eqn:E; [| done].
        eapply lookup_weaken in E; [| exact Hsub]. congruence.
Qed.

Lemma open_w_ok (fs : gmap string (node bytes)) (filename : string) :
  fs !! filename <> Some Dir ->
  open_w fs filename = inr (<[filename := File empty_file]> fs).
Proof.
  intros Hfile. unfold open_w. by destruct (fs !! filename) as [[|]|].
Qed.

Lemma save_data_comprehension (h : gmap positive Person) (pb : Phonebook) :
  save_data h pb
  = comprehension (fun c => full_name (h !!! c)) (fun c => __dict__ (h !!! c))
                  [] (contacts pb).
Proof. reflexivity. Qed.

(** With a path that can be opened, [save_to_file] in a supported format
    raises nothing and leaves the encoded mapping in the file. *)
Lemma save_to_file_supported (h : gmap positive Person) (pb : Phonebook)
    (filename : string) (fs : gmap string (node bytes)) :
  fs !! filename <> Some Dir ->
  save_to_file h pb filename "json" fs
  = (None, <[filename := File (json_dump (save_data h pb))]> fs) /\
  save_to_file h pb filename "yaml" fs
  = (None, <[filename := File (yaml_dump (save_data h pb))]> fs).
Proof.
  intros Hfile. unfold save_to_file.
  rewrite (open_w_ok _ _ Hfile). simpl. by rewrite !insert_insert_eq.
Qed.

(** C4.  The mapping [save_to_file] writes has one entry for each full
    name in the directory and no other: its keys are distinct and are
    exactly the full names of the contacts, and the value of a key is
    the attribute dictionary (first name, last name, phone, address,
    full name) of the last contact of the directory with that full
    name.  Contacts sharing a full name raise nothing: with a path that
    can be opened, [save_to_file] writes the encoded mapping and returns
    normally in both formats. *)
Theorem save_to_file_mapping (h : gmap positive Person) (pb : Phonebook) :
  NoDup (save_data h pb).*1 /\
  (forall k, k ∈ (save_data h pb).*1 <->
             exists r, r ∈ contacts pb /\ full_name (h !!! r) = k) /\
  (forall k v, (k, v) ∈ save_data h pb <->
     exists r, last (filter (fun c => full_name (h !!! c) = k) (contacts pb)) = Some r /\
               v = __dict__ (h !!! r)) /\
  (forall p : Person,
     __dict__ p !! "first_name" = Some (first_name p) /\
     __dict__ p !! "last_name" = Some (last_name p) /\
     __dict__ p !! "phone" = Some (phone p) /\
     __dict__ p !! "address" = Some (address p) /\
     __dict__ p !! "full_name" = Some (PyStr (full_name p)) /\
     dom (__dict__ p)
     = {["first_name"; "last_name"; "phone"; "address"; "full_name"]}) /\
  (forall filename fs, fs !! filename <> Some Dir ->
     save_to_file h pb filename "json" fs
     = (None, <[filename := File (json_dump (save_data h pb))]> fs) /\
     save_to_file h pb filename "yaml" fs
     = (None, <[filename := File (yaml_dump (save_data h pb))]> fs)).
Proof.
  assert (Hnd : NoDup (save_data h pb).*1).
  { rewrite save_data_comprehension. apply comprehension_NoDup. constructor. }
  split_and!.
  - done.
  - intros k. rewrite save_data_comprehension, comprehension_keys.
    simpl. rewrite elem_of_nil. tauto.
  - intros k v. rewrite (dict_lookup_elem_of _ _ _ Hnd).
    rewrite save_data_comprehension, comprehension_lookup.
    destruct (last _) as [r|]; simpl.
    + split; [intros [= <-]; by exists r | by intros (r' & [= <-] & ->)].
    + split; [done | by intros (r' & [=] & _)].
  - apply dict_fields.
  - intros filename fs Hfile. by apply save_to_file_supported.
Qed.

(** C8.  Reading a file whose contents parse, in a supported format, to
    a mapping of [n] records that all have both names appends [n]
    contacts to the directory, one per record and in the order of the
    records, whatever the keys of the mapping are: the contacts that
    were there keep their places, their objects are untouched, and the
    new contacts are new, distinct objects built from the records. *)
Theorem load_from_file_appends (filename file_format : string)
    (fs : gmap string (node bytes)) (h : gmap positive Person) (pb : Phonebook)
    (content : bytes) (data : list (string * gmap string pyval)) :
  fs !! filename = Some (File content) ->
  (file_format = "json" /\ json_load content = Some data) \/
  (file_format = "yaml" /\ yaml_load content = Some data) ->
  Forall has_names data.*2 ->
  exists h' new,
    load_from_file filename file_format fs h pb
    = (None, h', {| contacts := contacts pb ++ new |}) /\
    length (contacts pb ++ new) = length (contacts pb) + length data /\
    h ⊆ h' /\ NoDup new /\
    Forall2 (fun r record =>
               h !! r = None /\ h' !! r = Some (person_of_record record))
            new data.*2.
Proof.
  intros Hfile Hparse Hnames.
  destruct (load_loop_appends data.*2 h pb Hnames)
    as (h' & new & Hloop & Hsub & Hnd & Hall).
  exists h', new. split_and!; [| | done..].
  - unfold load_from_file, open_r, load_data. rewrite Hfile.
    destruct Hparse as [[-> ->] | [-> ->]]; simpl; exact Hloop.
  - rewrite length_app. f_equal.
    apply Forall2_length in Hall. by rewrite Hall, length_fmap.
Qed.

(** Whatever the records are, the loop only appends: when it stops at a
    record [from_dict] rejects, the contacts read before it have been
    appended and stay, and no object that was there is touched. *)
Lemma load_loop_prefix (values : list (gmap string pyval))
    (h : gmap positive Person) (pb : Phonebook) :
  exists new,
    (load_loop values h pb).2 = {| contacts := contacts pb ++ new |} /\
    h ⊆ (load_loop values h pb).1.2 /\
    length new <= length values /\
    ((load_loop values h pb).1.1 = None -> length new = length values).
Proof.
  revert h pb. induction values as [|data values IH]; intros h pb; simpl.
  - exists []. rewrite app_nil_r. by destruct pb.
  - unfold from_dict, Person_new.
    destruct (dict_getitem data "first_name") as [e | first]; simpl.
    { exists []. rewrite app_nil_r. destruct pb. split_and!; [done.. | simpl; lia | done]. }
    destruct (dict_getitem data "last_name") as [e | last]; simpl.
    { exists []. rewrite app_nil_r. destruct pb. split_and!; [done.. | simpl; lia | done]. }
    set (p := Person_init _ _ _ _).
    destruct (IH (alloc p h).2 (add_contact (alloc p h).1 pb))
      as (new & Hpb & Hh & Hlen & Hok).
    unfold alloc in *. simpl in *.
    exists (fresh (dom h) :: new). rewrite Hpb. rewrite <- app_assoc.
    split_and!; [done | | simpl; lia |].
    + etransitivity; [| exact Hh].
      apply insert_subseteq, not_elem_of_dom, is_fresh.
    + intros Hnone. simpl. by rewrite Hok.
Qed.

(** C9, as the code has it.  For a format that is neither ['json'] nor
    ['yaml']: [save_to_file] raises nothing, it leaves an empty file;
    [load_from_file] on an existing file stops with [UnboundLocalError]
    before it reads a contact, and on a missing file with
    [FileNotFoundError].  For a supported format, contents the parser
    rejects make [load_from_file] stop with the parser's error.  In
    every one of these cases the heap and the directory are as
    before. *)
Theorem unsupported_format_behaviour (file_format : string) :
  file_format <> "json" ->
  file_format <> "yaml" ->
  (forall h pb filename fs,
     fs !! filename <> Some Dir ->
     save_to_file h pb filename file_format fs
     = (None, <[filename := File empty_file]> fs)) /\
  (forall filename fs h pb content,
     fs !! filename = Some (File content) ->
     load_from_file filename file_format fs h pb
     = (Some (UnboundLocalError "data"), h, pb)) /\
  (forall filename fs h pb,
     fs !! filename = None ->
     load_from_file filename file_format fs h pb
     = (Some (FileNotFoundError filename), h, pb)) /\
  (forall supported filename fs h pb content,
     fs !! filename = Some (File content) ->
     (supported = "json" /\ json_load content = None) \/
     (supported = "yaml" /\ yaml_load content = None) ->
     load_from_file filename supported fs h pb
     = (Some (DecodeError supported), h, pb)).
Proof.
  intros Hjson Hyaml.
  apply String.eqb_neq in Hjson, Hyaml. split_and!.
  - intros h pb filename fs Hfile. unfold save_to_file.
    by rewrite (open_w_ok _ _ Hfile), Hjson, Hyaml.
  - intros filename fs h pb content Hfile.
    unfold load_from_file, open_r, load_data. by rewrite Hfile, Hjson, Hyaml.
  - intros filename fs h pb Hfile. unfold load_from_file, open_r. by rewrite Hfile.
  - intros supported filename fs h pb content Hfile Hbad.
    unfold load_from_file, open_r, load_data. rewrite Hfile.
    by destruct Hbad as [[-> ->] | [-> ->]].
Qed.

Section RoundTrip.
Context {laws : CodecLaws codec}.

Lemma save_data_distinct (h : gmap positive Person) (pb : Phonebook) :
  NoDup ((fun c => full_name (h !!! c)) <$> contacts pb) ->
  save_data h pb
  = (fun c => (full_name (h !!! c), __dict__ (h !!! c))) <$> contacts pb.
Proof.
  intros Hnd. rewrite save_data_comprehension.
  by rewrite comprehension_distinct.
Qed.

Lemma loaded_fields (h h' : gmap positive Person) (new : list positive)
    (values : list (gmap string pyval)) :
  Forall2 (fun r data => h !! r = None /\ h' !! r = Some (person_of_record data))
          new values ->
  (fun c => fields (h' !!! c)) <$> new = record_fields <$> values.
Proof.
  induction 1 as [|r data new values [_ Hr] _ IH]; [done |].
  rewrite !fmap_cons, IH. f_equal.
  by rewrite (lookup_total_correct _ _ _ Hr).
Qed.

(** What a file holds after [save_to_file], read back into a directory:
    the fields of the contacts read are the fields of the records. *)
Lemma load_parsed_fields (filename file_format : string)
    (fs : gmap string (node bytes)) (h0 : gmap positive Person)
    (content : bytes) (d : list (string * gmap string pyval)) :
  fs !! filename = Some (File content) ->
  load_data file_format content = inr (Some d) ->
  Forall has_names d.*2 ->
  exists h' pb',
    load_from_file filename file_format fs h0 Phonebook_init = (None, h', pb') /\
    (fun c => fields (h' !!! c)) <$> contacts pb' = record_fields <$> d.*2.
Proof.
  intros Hfile Hparse Hnames.
  destruct (load_loop_appends d.*2 h0 Phonebook_init Hnames)
    as (h' & new & Hloop & _ & _ & Hall).
  exists h', {| contacts := new |}. split.
  - unfold load_from_file, open_r. by rewrite Hfile, Hparse.
  - simpl. by eapply loaded_fields.
Qed.

(** C3.  Let the contacts of a directory have distinct full names and
    let it be saved in one of the two formats.  Loading the file into an
    empty directory succeeds, and the contacts read have, field by field
    (first name, last name, phone, address), the values of the contacts
    saved: they are the same up to the order of the keys in the file,
    and with [json], which keeps that order, they come in the same
    sequence. *)
Theorem save_load_round_trip (h h0 : gmap positive Person) (pb : Phonebook)
    (filename file_format : string) (fs : gmap string (node bytes)) :
  file_format = "json" \/ file_format = "yaml" ->
  fs !! filename <> Some Dir ->
  NoDup ((fun c => full_name (h !!! c)) <$> contacts pb) ->
  exists fs' h' pb',
    save_to_file h pb filename file_format fs = (None, fs') /\
    load_from_file filename file_format fs' h0 Phonebook_init = (None, h', pb') /\
    (fun c => fields (h' !!! c)) <$> contacts pb'
      ≡ₚ (fun c => fields (h !!! c)) <$> contacts pb /\
    (file_format = "json" ->
     (fun c => fields (h' !!! c)) <$> contacts pb'
     = (fun c => fields (h !!! c)) <$> contacts pb).
Proof.
  intros Hformat Hfile Hnd.
  pose proof (save_data_distinct h pb Hnd) as Hdata.
  assert (Hkeys : NoDup (save_data h pb).*1).
  { rewrite Hdata, <- list_fmap_compose. exact Hnd. }
  assert (Hvalues : record_fields <$> (save_data h pb).*2
                    = (fun c => fields (h !!! c)) <$> contacts pb).
  { rewrite Hdata, <- !list_fmap_compose. apply list_fmap_ext.
    intros i c _. simpl. apply record_fields_dict. }
  assert (Hnames : Forall has_names (save_data h pb).*2).
  { rewrite Hdata, <- list_fmap_compose. apply Forall_fmap, Forall_forall.
    intros c _. simpl. apply dict_has_names. }
  destruct (save_to_file_supported h pb filename fs Hfile) as [Hjson Hyaml].
  destruct Hformat as [-> | ->].
  - eexists. 
    destruct (load_parsed_fields filename "json"
                (<[filename := File (json_dump (save_data h pb))]> fs) h0
                (json_dump (save_data h pb)) (save_data h pb))
      as (h' & pb' & Hload & Hfields).
    + apply lookup_insert_eq.
    + unfold load_data. simpl. by rewrite json_round_trip.
    + done.
    + exists h', pb'. rewrite Hfields, Hvalues. by split_and!.
  - destruct (yaml_round_trip (save_data h pb) Hkeys) as (d' & Hparse & Hperm).
    eexists.
    destruct (load_parsed_fields filename "yaml"
                (<[filename := File (yaml_dump (save_data h pb))]> fs) h0
                (yaml_dump (save_data h pb)) d')
      as (h' & pb' & Hload & Hfields).
    + apply lookup_insert_eq.
    + unfold load_data. simpl. by rewrite Hparse.
    + by rewrite Hperm.
    + exists h', pb'. rewrite Hfields, <- Hvalues.
      split_and!; [done.. | by rewrite Hperm | done].
Qed.

End RoundTrip.

End StorageProperties.

(** ** The operations at work *)

(** The codec [wire_codec] satisfies what is asked of the libraries. *)
Lemma wire_codec_laws : CodecLaws wire_codec.
Proof.
  split.
  - intros d _. reflexivity.
  - intros d _. exists (reverse d). split; [reflexivity | apply reverse_Permutation].
Qed.

Example remove_from_empty_directory :
  remove_contact 1%positive Phonebook_init
  = (Some (ValueError "list.remove(x): x not in list"), Phonebook_init).
Proof. reflexivity. Qed.

Example remove_second_jane :
  remove_contact jane_doyle.1 two_janes = (None, {| contacts := [jane_smith.1] |}).
Proof. vm_compute. reflexivity. Qed.

Example update_replaces_first_same_name :
  update_contact sam_lee_2.2 sam_lee_2.1
    {| contacts := [jane_smith.1; sam_lee_1.1; jane_doyle.1; sam_lee_2.1] |}
  = (None, {| contacts := [jane_smith.1; sam_lee_2.1; jane_doyle.1; sam_lee_2.1] |}).
Proof. vm_compute. reflexivity. Qed.

Example update_unknown_name :
  update_contact sam_lee_2.2 sam_lee_2.1 two_janes
  = (Some (ValueError "Contact not found in the phonebook."), two_janes).
Proof. vm_compute. reflexivity. Qed.

Example save_two_sams :
  save_data sam_lee_2.2 two_sams
  = [("Sam Lee", __dict__ (Person_init (PyStr "Sam") (PyStr "Lee")
                                       (PyStr "555-0002") (PyStr "9 Elm St")))].
Proof. vm_compute. reflexivity. Qed.

(** C9, as the claim states it, fails: saving in a format that is not
    supported raises nothing; it returns normally and leaves an empty
    file. *)
Lemma save_unsupported_format_counterexample :
  save_to_file (codec := wire_codec) jane_doyle.2 two_janes "book.xml" "xml" ∅
  = (None, {[ "book.xml" := File Blank ]}).
Proof. vm_compute. reflexivity. Qed.

Lemma unsupported_format_behaviour_witness :
  "xml" <> "json" /\ "xml" <> "yaml" /\
  save_to_file (codec := wire_codec) jane_doyle.2 two_janes "book.xml" "xml" ∅
  = (None, <["book.xml" := File Blank]> ∅) /\
  load_from_file (codec := wire_codec) "book.xml" "xml"
    {[ "book.xml" := File (Text "json" []) ]} jane_doyle.2 two_janes
  = (Some (UnboundLocalError "data"), jane_doyle.2, two_janes).
Proof.
  assert (Hjson : "xml" <> "json") by discriminate.
  assert (Hyaml : "xml" <> "yaml") by discriminate.
  destruct (unsupported_format_behaviour (codec := wire_codec) "xml" Hjson Hyaml)
    as (Hsave & Hload & _).
  split_and!; [done | done | |].
  - apply Hsave. vm_compute. discriminate.
  - apply (Hload _ _ _ _ (Text "json" [])). reflexivity.
Defined.

Lemma load_from_file_appends_witness :
  exists h' new,
    load_from_file (codec := wire_codec) "book.json" "json"
      {[ "book.json" := File (Text "json" two_records) ]} jane_doyle.2 two_janes
    = (None, h', {| contacts := contacts two_janes ++ new |}) /\
    length (contacts two_janes ++ new) = length (contacts two_janes) + 2 /\
    jane_doyle.2 ⊆ h' /\ NoDup new /\
    Forall2 (fun r record =>
               jane_doyle.2 !! r = None /\ h' !! r = Some (person_of_record record))
            new two_records.*2.
Proof.
  apply (load_from_file_appends (codec := wire_codec) "book.json" "json"
           {[ "book.json" := File (Text "json" two_records) ]}
           jane_doyle.2 two_janes (Text "json" two_records) two_records).
  - reflexivity.
  - left. split; reflexivity.
  - repeat constructor; by eexists.
Defined.

Lemma save_load_round_trip_witness :
  NoDup ((fun c => full_name (jane_doyle.2 !!! c)) <$> contacts two_janes) /\
  exists fs' h' pb',
    save_to_file (codec := wire_codec) jane_doyle.2 two_janes "book.yaml" "yaml" ∅
    = (None, fs') /\
    load_from_file (codec := wire_codec) "book.yaml" "yaml" fs' ∅ Phonebook_init
    = (None, h', pb') /\
    (fun c => fields (h' !!! c)) <$> contacts pb'
      ≡ₚ (fun c => fields (jane_doyle.2 !!! c)) <$> contacts two_janes /\
    ("yaml" = "json" ->
     (fun c => fields (h' !!! c)) <$> contacts pb'
     = (fun c => fields (jane_doyle.2 !!! c)) <$> contacts two_janes).
Proof.
  assert (Hnd : NoDup ((fun c => full_name (jane_doyle.2 !!! c)) <$> contacts two_janes)).
  { apply (bool_decide_unpack _). vm_compute. reflexivity. }
  split; [exact Hnd |].
  apply (save_load_round_trip (codec := wire_codec) (laws := wire_codec_laws)
           jane_doyle.2 ∅ two_janes "book.yaml" "yaml" ∅).
  - right. reflexivity.
  - vm_compute. discriminate.
  - exact Hnd.
Defined.

(** With [yaml] the contacts can come back in another order. *)
Example yaml_round_trip_reorders :
  exists fs' h',
    save_to_file (codec := wire_codec) jane_doyle.2 two_janes "book.yaml" "yaml" ∅
    = (None, fs') /\
    load_from_file (codec := wire_codec) "book.yaml" "yaml" fs' ∅ Phonebook_init
    = (None, h', {| contacts := [1%positive; 2%positive] |}) /\
    full_name <$> h' !! 1%positive = Some "Jane Doyle" /\
    full_name <$> h' !! 2%positive = Some "Jane Smith".
Proof. eexists _, _. vm_compute. by split_and!. Qed.

(** * Further properties of the directory *)

(** ** More on strings *)

Lemma append_nil_r (s : string) : s +:+ "" = s.
Proof. induction s as [|c s IH]; [done |]. by rewrite append_String, IH. Qed.

Lemma append_assoc (a b c : string) : (a +:+ b) +:+ c = a +:+ (b +:+ c).
Proof.
  induction a as [|x a IH]; [done |]. by rewrite !append_String, IH.
Qed.

Lemma contains_refl (s : string) : contains s s = true.
Proof. apply contains_spec. exists "", "". by rewrite append_empty, append_nil_r. Qed.

Lemma contains_trans (q r s : string) :
  contains q r = true -> contains r s = true -> contains q s = true.
Proof.
  rewrite !contains_spec. intros (a & b & ->) (c & d & ->).
  exists (c +:+ a), (b +:+ d). by rewrite !append_assoc.
Qed.

Lemma lower_ascii_idemp (c : ascii) : lower_ascii (lower_ascii c) = lower_ascii c.
Proof. destruct c as [[] [] [] [] [] [] [] []]; vm_compute; reflexivity. Qed.

Lemma lower_idemp (s : string) : lower (lower s) = lower s.
Proof.
  induction s as [|c s IH]; [done |]. simpl. by rewrite lower_ascii_idemp, IH.
Qed.

(** ** search_contacts, composed *)

(** The loop of [search_contacts] as a filter by its own test. *)
Lemma search_contacts_filter (h : gmap positive Person) (q : string) (pb : Phonebook) :
  search_contacts h q pb
  = filter (fun r => contact_matches (lower q) (h !!! r) = true) (contacts pb).
Proof.
  unfold search_contacts.
  by rewrite (search_loop_filter
                (fun r => contact_matches (lower q) (h !!! r) = true)).
Qed.

Lemma field_matches_mono (q1 q2 : string) (field : pyval) :
  contains q1 q2 = true ->
  field_matches q2 field = true -> field_matches q1 field = true.
Proof.
  intros Hq. destruct field as [|s]; simpl; [done |].
  rewrite !andb_true_iff. intros [Hs Hin]. split; [done |].
  by eapply contains_trans.
Qed.

Lemma contact_matches_mono (q1 q2 : string) (p : Person) :
  contains q1 q2 = true ->
  contact_matches q2 p = true -> contact_matches q1 p = true.
Proof.
  intros Hq. unfold contact_matches. rewrite !orb_true_iff.
  pose proof (field_matches_mono q1 q2) as Hmono.
  intros [[[[H | H] | H] | H] | H]; apply (Hmono _ Hq) in H; tauto.
Qed.

Lemma filter_sublist_impl {A : Type} (P Q : A -> Prop)
    `{!forall x, Decision (P x)} `{!forall x, Decision (Q x)} (l : list A) :
  (forall x, P x -> Q x) -> filter P l `sublist_of` filter Q l.
Proof.
  intros HPQ. induction l as [|x l IH]; [done |].
  rewrite !filter_cons. destruct (decide (P x)) as [HP | HP].
  - rewrite decide_True by auto. by apply sublist_skip.
  - destruct (decide (Q x)); [by apply sublist_cons | done].
Qed.

(** X1.  Adding a contact and searching commute: the results of a
    search after [add_contact] are the results before it, followed by
    the new contact when it passes the test of the search. *)
Theorem search_after_add (h : gmap positive Person) (q : string)
    (person : positive) (pb : Phonebook) :
  search_contacts h q (add_contact person pb)
  = search_contacts h q pb
    ++ (if contact_matches (lower q) (h !!! person) then [person] else []).
Proof.
  rewrite !search_contacts_filter. simpl.
  rewrite filter_app, filter_cons, filter_nil.
  destruct (contact_matches _ _) eqn:E.
  - by rewrite decide_True.
  - rewrite decide_False; [done | congruence].
Qed.

(** A contact of the directory whose field [s] is a non-empty string is
    among the results of the search for [s]. *)
Lemma search_contacts_finds (h : gmap positive Person) (pb : Phonebook)
    (person : positive) (s : string) :
  person ∈ contacts pb ->
  PyStr s ∈ searched_fields (h !!! person) ->
  s <> "" ->
  person ∈ search_contacts h s pb.
Proof.
  intros Hin Hfield Hne. rewrite search_contacts_filter.
  apply list_elem_of_filter. split; [| done].
  apply contact_matches_spec, Exists_exists.
  exists (PyStr s). split; [done |].
  exists s. split_and!; [done.. |].
  exists "", "". by rewrite append_empty, append_nil_r.
Qed.

(** X2.  A contact of the directory is found by the text of each of its
    fields that is a non-empty string (first name, last name, full name,
    phone, address), whatever the case of the letters. *)
Theorem search_finds_by_field (h : gmap positive Person) (pb : Phonebook)
    (person : positive) (s : string) :
  person ∈ contacts pb ->
  PyStr s ∈ searched_fields (h !!! person) ->
  s <> "" ->
  person ∈ search_contacts h s pb.
Proof.
  intros Hin Hfield Hne. rewrite search_contacts_filter.
  apply list_elem_of_filter. split; [| done].
  apply contact_matches_spec, Exists_exists.
  exists (PyStr s). split; [done |].
  exists s. split_and!; [done.. |].
  exists "", "". by rewrite append_empty, append_nil_r.
Qed.

(** X3.  A longer query gives fewer results: when the lower-cased [q1]
    occurs in the lower-cased [q2], the results for [q2] are among the
    results for [q1], in the same order. *)
Theorem search_refines (h : gmap positive Person) (q1 q2 : string) (pb : Phonebook) :
  contains (lower q1) (lower q2) = true ->
  search_contacts h q2 pb `sublist_of` search_contacts h q1 pb.
Proof.
  intros Hq. rewrite !search_contacts_filter.
  apply filter_sublist_impl. intros r. by apply contact_matches_mono.
Qed.

(** X4.  The case of the letters of the query does not matter: a query
    and its lower-cased form give the same results, and so do any two
    queries with the same lower-cased form. *)
Theorem search_ignores_query_case (h : gmap positive Person) (q : string)
    (pb : Phonebook) :
  search_contacts h (lower q) pb = search_contacts h q pb /\
  (forall q', lower q' = lower q ->
              search_contacts h q' pb = search_contacts h q pb).
Proof.
  split.
  - unfold search_contacts. by rewrite lower_idemp.
  - intros q' Hq. unfold search_contacts. by rewrite Hq.
Qed.

(** ** add_contact and remove_contact, composed *)

Lemma remove_contact_inv (person : positive) (pb pb' : Phonebook) :
  remove_contact person pb = (None, pb') ->
  exists l1 l2,
    contacts pb = l1 ++ person :: l2 /\ (person ∉ l1) /\ contacts pb' = l1 ++ l2.
Proof.
  unfold remove_contact. intros Hrm.
  destruct (decide (person ∈ contacts pb)) as [Hin | Hnot].
  - destruct (py_list_remove_Some _ _ Hin) as (l1 & l2 & Heq & Hl1 & Hsome).
    rewrite Hsome in Hrm. injection Hrm as <-. by exists l1, l2.
  - by rewrite py_list_remove_None in Hrm.
Qed.

(** X5.  [remove_contact] takes out one reference and nothing else: when
    it succeeds, the directory it leaves, with the removed contact put
    back in front, has the same elements as the directory before, each
    as many times.  So a contact held twice is still there after one
    removal, and in a directory without repetitions the removed contact
    is gone. *)
Theorem remove_contact_takes_one (person : positive) (pb pb' : Phonebook) :
  remove_contact person pb = (None, pb') ->
  contacts pb ≡ₚ person :: contacts pb' /\
  contacts pb' `sublist_of` contacts pb /\
  (NoDup (contacts pb) -> (person ∉ contacts pb') /\ NoDup (contacts pb')).
Proof.
  intros Hrm. destruct (remove_contact_inv _ _ _ Hrm) as (l1 & l2 & Heq & Hl1 & Heq').
  rewrite Heq, Heq'. split_and!.
  - by rewrite Permutation_middle.
  - apply sublist_app; [done |]. by apply sublist_cons.
  - intros Hnd. apply NoDup_app in Hnd as (Hnd1 & Hdisj & Hnd2).
    apply NoDup_cons in Hnd2 as [Hl2 Hnd2]. split.
    + rewrite elem_of_app. tauto.
    + apply NoDup_app. split_and!; [done | | done].
      intros x Hx1 Hx2. apply (Hdisj x Hx1). by right.
Qed.

Lemma remove_contact_takes_one_witness :
  remove_contact 1%positive {| contacts := [2; 1; 3; 1]%positive |}
  = (None, {| contacts := [2; 3; 1]%positive |}) /\
  [2; 1; 3; 1]%positive ≡ₚ 1%positive :: [2; 3; 1]%positive.
Proof.
  assert (Hrm : remove_contact 1%positive {| contacts := [2; 1; 3; 1]%positive |}
                = (None, {| contacts := [2; 3; 1]%positive |})) by reflexivity.
  split; [exact Hrm |].
  exact (proj1 (remove_contact_takes_one _ _ _ Hrm)).
Defined.

(** X6.  Adding a contact that the directory does not hold and removing
    it again gives the directory back. *)
Theorem remove_after_add (person : positive) (pb : Phonebook) :
  person ∉ contacts pb ->
  remove_contact person (add_contact person pb) = (None, pb).
Proof.
  intros Hnot. unfold remove_contact, add_contact. simpl.
  destruct (py_list_remove_Some person (contacts pb ++ [person]))
    as (l1 & l2 & Heq & Hl1 & ->).
  { apply elem_of_app. right. apply list_elem_of_here. }
  destruct pb as [cs]. simpl in *. do 2 f_equal.
  assert (Hlen : length l1 = length cs \/ length l1 < length cs) by
    (apply (f_equal length) in Heq; rewrite !length_app in Heq; simpl in Heq; lia).
  destruct Hlen as [Hlen | Hlen].
  - apply app_inj_1 in Heq as [-> Heq]; [| done].
    destruct l2; [by rewrite app_nil_r | by destruct l2].
  - exfalso. apply Hnot.
    assert (cs !! length l1 = Some person) as Hlook.
    { rewrite <- (lookup_app_l cs [person]) by done.
      rewrite Heq. by rewrite list_lookup_middle. }
    by eapply list_elem_of_lookup_2.
Qed.

Lemma remove_after_add_witness :
  (3%positive ∉ contacts two_janes) /\
  remove_contact 3%positive (add_contact 3%positive two_janes) = (None, two_janes).
Proof.
  assert (Hnot : 3%positive ∉ contacts two_janes).
  { apply (bool_decide_unpack _). vm_compute. reflexivity. }
  split; [exact Hnot |].
  exact (remove_after_add 3%positive two_janes Hnot).
Defined.

(** X7.  Removing and searching commute: after a successful
    [remove_contact], a search gives what it gave before, with the first
    occurrence of the removed contact taken out when that contact passes
    the test of the search. *)
Theorem search_after_remove (h : gmap positive Person) (q : string)
    (person : positive) (pb pb' : Phonebook) :
  remove_contact person pb = (None, pb') ->
  if contact_matches (lower q) (h !!! person)
  then py_list_remove person (search_contacts h q pb) = Some (search_contacts h q pb')
  else search_contacts h q pb' = search_contacts h q pb.
Proof.
  intros Hrm. destruct (remove_contact_inv _ _ _ Hrm) as (l1 & l2 & Heq & Hl1 & Heq').
  rewrite !search_contacts_filter, Heq, Heq', !filter_app, filter_cons.
  destruct (contact_matches _ _) eqn:E.
  - rewrite decide_True by done.
    set (P := fun r => contact_matches (lower q) (h !!! r) = true).
    assert (Hnot : person ∉ filter P l1).
    { intros Hin. apply list_elem_of_filter in Hin as [_ Hin]. contradiction. }
    destruct (py_list_remove_Some person (filter P l1 ++ person :: filter P l2))
      as (k1 & k2 & Heqk & Hk1 & ->).
    { apply elem_of_app. right. apply list_elem_of_here. }
    f_equal.
    assert (Hlen : length k1 = length (filter P l1)).
    { destruct (Nat.lt_trichotomy (length k1) (length (filter P l1)))
        as [Hlt | [Heqlen | Hgt]]; [| done |]; exfalso.
      - apply Hnot. apply (list_elem_of_lookup_2 _ (length k1)).
        rewrite <- (lookup_app_l _ (person :: filter P l2)) by done.
        rewrite Heqk. by rewrite list_lookup_middle.
      - apply Hk1. apply (list_elem_of_lookup_2 _ (length (filter P l1))).
        rewrite <- (lookup_app_l _ (person :: k2)) by done.
        rewrite <- Heqk. by rewrite list_lookup_middle. }
    apply app_inj_1 in Heqk as [<- [= <-]]; done.
  - rewrite decide_False; [done | congruence].
Qed.

Lemma search_after_remove_witness :
  remove_contact jane_smith.1 two_janes = (None, {| contacts := [jane_doyle.1] |}) /\
  py_list_remove jane_smith.1 (search_contacts jane_doyle.2 "jane" two_janes)
  = Some (search_contacts jane_doyle.2 "jane" {| contacts := [jane_doyle.1] |}).
Proof.
  assert (Hrm : remove_contact jane_smith.1 two_janes
                = (None, {| contacts := [jane_doyle.1] |})) by (vm_compute; reflexivity).
  split; [exact Hrm |].
  exact (search_after_remove jane_doyle.2 "jane" _ _ _ Hrm).
Defined.

(** ** update_contact, composed *)

Lemma update_contact_inv (h : gmap positive Person) (person : positive)
    (pb pb' : Phonebook) :
  update_contact h person pb = (None, pb') ->
  exists l1 r l2,
    contacts pb = l1 ++ r :: l2 /\
    Forall (fun c => ~ same_name h person c) l1 /\ same_name h person r /\
    contacts pb' = l1 ++ person :: l2.
Proof.
  unfold update_contact. intros Hup.
  destruct (decide (Exists (same_name h person) (contacts pb))) as [Hex | Hnone].
  - destruct (first_same_name h person _ Hex) as (l1 & r & l2 & Heq & Hl1 & Hr).
    exists l1, r, l2. split_and!; [done.. |].
    rewrite Heq, (update_loop_found h person 0 l1 l2 _ r Hl1 Hr) in Hup.
    injection Hup as <-. simpl.
    rewrite insert_app_r_alt by lia. by rewrite Nat.sub_diag.
  - rewrite update_loop_not_found in Hup; [done |].
    apply not_Exists_Forall; [apply _ | done].
Qed.

Lemma update_contact_first (h : gmap positive Person) (person r : positive)
    (l1 l2 : list positive) :
  Forall (fun c => ~ same_name h person c) l1 ->
  same_name h person r ->
  update_contact h person {| contacts := l1 ++ r :: l2 |}
  = (None, {| contacts := l1 ++ person :: l2 |}).
Proof.
  intros Hl1 Hr. unfold update_contact. simpl.
  rewrite (update_loop_found h person 0 l1 l2 _ r Hl1 Hr). simpl.
  rewrite insert_app_r_alt by lia. by rewrite Nat.sub_diag.
Qed.

Lemma first_match_unique {A : Type} (P : A -> Prop) (l1 k1 : list A) (x y : A)
    (l2 k2 : list A) :
  l1 ++ x :: l2 = k1 ++ y :: k2 ->
  Forall (fun c => ~ P c) l1 -> Forall (fun c => ~ P c) k1 ->
  P x -> P y ->
  l1 = k1 /\ x = y /\ l2 = k2.
Proof.
  intros Heq Hl1. revert k1 Heq.
  induction Hl1 as [|c l1 Hc _ IH]; intros k1 Heq Hk1 Hx Hy.
  - destruct k1 as [|c k1]; simpl in Heq.
    + by injection Heq as -> ->.
    + injection Heq as -> _. apply Forall_cons in Hk1 as [Hc _]. contradiction.
  - destruct k1 as [|c' k1]; simpl in Heq.
    + injection Heq as -> _. contradiction.
    + injection Heq as -> Heq. apply Forall_cons in Hk1 as [_ Hk1].
      destruct (IH k1 Heq Hk1 Hx Hy) as (-> & -> & ->). done.
Qed.

Lemma update_contact_member (h : gmap positive Person) (person : positive)
    (pb : Phonebook) :
  person ∈ contacts pb ->
  exists l1 r l2,
    contacts pb = l1 ++ r :: l2 /\
    Forall (fun c => ~ same_name h person c) l1 /\ same_name h person r /\
    update_contact h person pb = (None, {| contacts := l1 ++ person :: l2 |}).
Proof.
  intros Hin.
  assert (Hex : Exists (same_name h person) (contacts pb)).
  { apply Exists_exists. by exists person. }
  destruct (first_same_name h person _ Hex) as (l1 & r & l2 & Heq & Hl1 & Hr).
  exists l1, r, l2. split_and!; [done.. |].
  destruct pb as [cs]. simpl in Heq. subst cs. by apply update_contact_first.
Qed.

(** X8.  [update_contact] with a contact that the directory already
    holds never raises: the contact has its own full name.  The
    directory keeps its length and still holds the contact, and it is
    left exactly as it was when no contact before it has the same full
    name. *)
Theorem update_contact_of_member (h : gmap positive Person) (person : positive)
    (pb : Phonebook) :
  person ∈ contacts pb ->
  exists pb',
    update_contact h person pb = (None, pb') /\
    person ∈ contacts pb' /\
    length (contacts pb') = length (contacts pb) /\
    (forall l1 l2,
       contacts pb = l1 ++ person :: l2 ->
       Forall (fun c => ~ same_name h person c) l1 ->
       pb' = pb).
Proof.
  intros Hin.
  destruct (update_contact_member h person pb Hin) as (l1 & r & l2 & Heq & Hl1 & Hr & Hup).
  exists {| contacts := l1 ++ person :: l2 |}.
  destruct pb as [cs]. simpl in *. subst cs. split_and!.
  - done.
  - apply elem_of_app. right. apply list_elem_of_here.
  - by rewrite !length_app.
  - intros k1 k2 Heq Hk1.
    by destruct (first_match_unique (same_name h person) l1 k1 r person l2 k2)
      as (-> & -> & ->).
Qed.

Lemma update_contact_of_member_witness :
  sam_lee_2.1 ∈ contacts two_sams /\
  exists pb',
    update_contact sam_lee_2.2 sam_lee_2.1 two_sams = (None, pb') /\
    sam_lee_2.1 ∈ contacts pb' /\
    length (contacts pb') = length (contacts two_sams).
Proof.
  assert (Hin : sam_lee_2.1 ∈ contacts two_sams).
  { apply (bool_decide_unpack _). vm_compute. reflexivity. }
  split; [exact Hin |].
  destruct (update_contact_of_member sam_lee_2.2 sam_lee_2.1 two_sams Hin)
    as (pb' & Hup & Hmem & Hlen & _).
  exists pb'. by split_and!.
Defined.

(** X9.  [update_contact] is idempotent: repeating a successful update
    with the same contact succeeds again and changes nothing more. *)
Theorem update_contact_twice (h : gmap positive Person) (person : positive)
    (pb pb' : Phonebook) :
  update_contact h person pb = (None, pb') ->
  update_contact h person pb' = (None, pb').
Proof.
  intros Hup.
  destruct (update_contact_inv _ _ _ _ Hup) as (l1 & r & l2 & _ & Hl1 & _ & Heq').
  destruct pb' as [cs]. simpl in Heq'. subst cs.
  by apply update_contact_first.
Qed.

Lemma update_contact_twice_witness :
  update_contact sam_lee_2.2 sam_lee_2.1 two_sams
  = (None, {| contacts := [sam_lee_2.1; sam_lee_2.1] |}) /\
  update_contact sam_lee_2.2 sam_lee_2.1 {| contacts := [sam_lee_2.1; sam_lee_2.1] |}
  = (None, {| contacts := [sam_lee_2.1; sam_lee_2.1] |}).
Proof.
  assert (Hup : update_contact sam_lee_2.2 sam_lee_2.1 two_sams
                = (None, {| contacts := [sam_lee_2.1; sam_lee_2.1] |}))
    by (vm_compute; reflexivity).
  split; [exact Hup |].
  exact (update_contact_twice _ _ _ _ Hup).
Defined.

(** X10.  [update_contact] can lose a contact: when the first contact
    with the full name of [person] is another object, held once, that
    object is no longer in the directory afterwards; when [person] was
    already in the directory it is then held one more time. *)
Theorem update_contact_drops_namesake (h : gmap positive Person)
    (person r : positive) (l1 l2 : list positive) :
  Forall (fun c => ~ same_name h person c) l1 ->
  same_name h person r ->
  r <> person ->
  r ∉ l1 ++ l2 ->
  exists pb',
    update_contact h person {| contacts := l1 ++ r :: l2 |} = (None, pb') /\
    (r ∉ contacts pb') /\
    length (filter (fun c => c = person) (contacts pb'))
    = S (length (filter (fun c => c = person) (l1 ++ r :: l2))).
Proof.
  intros Hl1 Hr Hne Hnot.
  exists {| contacts := l1 ++ person :: l2 |}. split_and!.
  - by apply update_contact_first.
  - simpl. rewrite elem_of_app, elem_of_cons.
    rewrite elem_of_app in Hnot. intros [? | [? | ?]]; [| done |]; tauto.
  - simpl. rewrite !filter_app, !filter_cons.
    rewrite decide_True by done. rewrite decide_False by done.
    rewrite !length_app. simpl. lia.
Qed.

Lemma update_contact_drops_namesake_witness :
  sam_lee_1.1 <> sam_lee_2.1 /\
  exists pb',
    update_contact sam_lee_2.2 sam_lee_2.1 two_sams = (None, pb') /\
    (sam_lee_1.1 ∉ contacts pb').
Proof.
  assert (Hne : sam_lee_1.1 <> sam_lee_2.1) by (vm_compute; discriminate).
  split; [exact Hne |].
  destruct (update_contact_drops_namesake sam_lee_2.2 sam_lee_2.1 sam_lee_1.1
              [] [sam_lee_2.1]) as (pb' & Hup & Hgone & _).
  - constructor.
  - vm_compute. reflexivity.
  - exact Hne.
  - apply (bool_decide_unpack _). vm_compute. reflexivity.
  - exists pb'. split; [exact Hup | exact Hgone].
Defined.

(** ** Records and objects *)

Lemma person_of_record_dict (p : Person) :
  person_of_record (__dict__ p)
  = Person_init (first_name p) (last_name p) (phone p) (address p).
Proof.
  destruct (dict_fields p) as (Hf & Hl & Hp & Ha & _).
  unfold person_of_record, dict_get. by rewrite Hf, Hl, Hp, Ha.
Qed.

Lemma person_of_record_consistent (p : Person) :
  consistent p -> person_of_record (__dict__ p) = p.
Proof.
  intros Hp. rewrite person_of_record_dict. destruct p as [f l ph a n].
  unfold consistent in Hp. simpl in Hp. unfold Person_init. simpl. by rewrite Hp.
Qed.

(** X11.  [from_dict] undoes [__dict__]: from the attribute dictionary of
    an object it builds a new object with the same first name, last
    name, phone and address, and a full name computed afresh from the
    two names; when the full name of the original was the computed one,
    the new object has all five attributes of the original. *)
Theorem from_dict_of_dict (p : Person) (h : gmap positive Person) :
  from_dict (__dict__ p) h
  = inr (alloc (Person_init (first_name p) (last_name p) (phone p) (address p)) h) /\
  (consistent p -> from_dict (__dict__ p) h = inr (alloc p h)).
Proof.
  assert (Hfrom : from_dict (__dict__ p) h
                  = inr (alloc (person_of_record (__dict__ p)) h)).
  { apply from_dict_has_names, dict_has_names. }
  split.
  - by rewrite Hfrom, person_of_record_dict.
  - intros Hp. by rewrite Hfrom, person_of_record_consistent.
Qed.

(** ** save_to_file and load_from_file, composed *)

Lemma save_data_keys_in (h : gmap positive Person) (pb : Phonebook) (k : string) :
  k ∈ (save_data h pb).*1 -> k ∈ (fun c => full_name (h !!! c)) <$> contacts pb.
Proof.
  rewrite save_data_comprehension, comprehension_keys. simpl.
  intros [Hk | (r & Hr & <-)]; [by apply elem_of_nil in Hk |].
  apply list_elem_of_fmap. by exists r.
Qed.

Lemma save_data_keys_NoDup (h : gmap positive Person) (pb : Phonebook) :
  NoDup (save_data h pb).*1.
Proof. rewrite save_data_comprehension. apply comprehension_NoDup. constructor. Qed.

(** X12.  The mapping [save_to_file] writes never has more entries than
    the directory has contacts, and it has as many exactly when the full
    names of the contacts are distinct: a contact is left out of the
    file if and only if two contacts share a full name. *)
Theorem save_data_size (h : gmap positive Person) (pb : Phonebook) :
  length (save_data h pb) <= length (contacts pb) /\
  (length (save_data h pb) = length (contacts pb) <->
   NoDup ((fun c => full_name (h !!! c)) <$> contacts pb)).
Proof.
  pose proof (save_data_keys_NoDup h pb) as Hnd.
  assert (Hsub : (save_data h pb).*1 ⊆+ (fun c => full_name (h !!! c)) <$> contacts pb).
  { apply NoDup_submseteq; [done |]. apply save_data_keys_in. }
  pose proof (submseteq_length _ _ Hsub) as Hlen.
  rewrite !length_fmap in Hlen. split; [done |]. split.
  - intros Heq. rewrite <- (submseteq_length_Permutation _ _ Hsub); [done |].
    rewrite !length_fmap. lia.
  - intros Hnames. rewrite (save_data_distinct h pb Hnames). by rewrite length_fmap.
Qed.

Lemma load_loop_app (v1 v2 : list (gmap string pyval))
    (h : gmap positive Person) (pb : Phonebook) :
  load_loop (v1 ++ v2) h pb
  = match load_loop v1 h pb with
    | (None, h1, pb1) => load_loop v2 h1 pb1
    | failed => failed
    end.
Proof.
  revert h pb. induction v1 as [|data v1 IH]; intros h pb; simpl; [done |].
  destruct (from_dict data h) as [e | [r h1]]; [done |]. apply IH.
Qed.

Lemma from_dict_without_names (data : gmap string pyval) (h : gmap positive Person) :
  ~ has_names data ->
  exists key, from_dict data h = inl (KeyError key) /\
              (key = "first_name" \/ key = "last_name") /\ data !! key = None.
Proof.
  intros Hbad. unfold from_dict, dict_getitem.
  destruct (data !! "first_name") as [first|] eqn:Hf.
  - destruct (data !! "last_name") as [last|] eqn:Hl.
    + destruct Hbad. split; by eexists.
    + exists "last_name". by split_and!; [| right |].
  - exists "first_name". by split_and!; [| left |].
Qed.

Lemma dict_setitem_Forall {V : Type} (Q : string * V -> Prop) (key : string)
    (value : V) (d : list (string * V)) :
  Forall Q d -> Q (key, value) -> Forall Q (dict_setitem key value d).
Proof.
  intros Hd Hkv. induction Hd as [|[k v] d Hk Hd IH]; simpl.
  - by constructor.
  - destruct (decide (k = key)) as [-> | Hne]; by constructor.
Qed.

Lemma comprehension_Forall {A V : Type} (key : A -> string) (value : A -> V)
    (Q : string * V -> Prop) (d : list (string * V)) (l : list A) :
  Forall Q d -> Forall (fun x => Q (key x, value x)) l ->
  Forall Q (comprehension key value d l).
Proof.
  intros Hd Hl. revert d Hd. unfold comprehension.
  induction Hl as [|x l Hx _ IH]; intros d Hd; simpl; [done |].
  apply IH. by apply dict_setitem_Forall.
Qed.

Lemma save_data_entries (h : gmap positive Person) (pb : Phonebook) :
  Forall (fun c => consistent (h !!! c)) (contacts pb) ->
  Forall saved_entry (save_data h pb).
Proof.
  intros Hall. rewrite save_data_comprehension.
  apply comprehension_Forall; [constructor |].
  eapply Forall_impl; [exact Hall |]. intros c Hc. by exists (h !!! c).
Qed.

Lemma resave_entries (h' : gmap positive Person) (new : list positive)
    (d : list (string * gmap string pyval)) :
  Forall saved_entry d ->
  Forall2 (fun r data => h' !! r = Some (person_of_record data)) new d.*2 ->
  (fun r => (full_name (h' !!! r), __dict__ (h' !!! r))) <$> new = d.
Proof.
  intros Hd. revert new. induction Hd as [|[k v] d (p & Hp & [= -> ->]) _ IH];
    intros new Hall.
  - by apply Forall2_nil_inv_r in Hall as ->.
  - rewrite fmap_cons in Hall. simpl in Hall.
    apply Forall2_cons_inv_r in Hall as (r & new' & Hr & Hall & ->).
    rewrite fmap_cons, (IH new' Hall). f_equal.
    rewrite (lookup_total_correct _ _ _ Hr).
    by rewrite person_of_record_consistent.
Qed.

Section MoreStorage.
Context {codec : Codec}.

(** X13.  When the records of a file are read and one of them lacks a
    required name, [load_from_file] stops at that record with the
    [KeyError] of the missing key; the contacts built from the records
    before it have already been appended and stay in the directory, and
    the records after it are not read. *)
Theorem load_from_file_stops (filename file_format : string)
    (fs : gmap string (node bytes)) (h : gmap positive Person) (pb : Phonebook)
    (content : bytes) (d1 d2 : list (string * gmap string pyval))
    (k : string) (bad : gmap string pyval) :
  fs !! filename = Some (File content) ->
  (file_format = "json" /\ json_load content = Some (d1 ++ (k, bad) :: d2)) \/
  (file_format = "yaml" /\ yaml_load content = Some (d1 ++ (k, bad) :: d2)) ->
  Forall has_names d1.*2 ->
  ~ has_names bad ->
  exists key h' new,
    load_from_file filename file_format fs h pb
    = (Some (KeyError key), h', {| contacts := contacts pb ++ new |}) /\
    (key = "first_name" \/ key = "last_name") /\ bad !! key = None /\
    length new = length d1 /\ h ⊆ h' /\
    Forall2 (fun r record => h' !! r = Some (person_of_record record)) new d1.*2.
Proof.
  intros Hfile Hparse Hgood Hbad.
  destruct (load_loop_appends d1.*2 h pb Hgood) as (h' & new & Hloop & Hsub & _ & Hall).
  destruct (from_dict_without_names bad h' Hbad) as (key & Hfrom & Hkey & Hnone).
  exists key, h', new. split_and!; [| done | done | | done |].
  - unfold load_from_file, open_r, load_data. rewrite Hfile.
    assert (Hrun : load_loop (d1 ++ (k, bad) :: d2).*2 h pb
                   = (Some (KeyError key), h', {| contacts := contacts pb ++ new |})).
    { rewrite fmap_app, fmap_cons, load_loop_app, Hloop. simpl. by rewrite Hfrom. }
    by destruct Hparse as [[-> ->] | [-> ->]].
  - apply Forall2_length in Hall. by rewrite Hall, length_fmap.
  - eapply Forall2_impl; [exact Hall |]. by intros r record [_ ?].
Qed.

(** X14.  Loading the same file a second time duplicates its contacts:
    the directory then holds, after what it held, two runs of new
    objects, one per record each, with the same fields in the same
    order, and no object of the second run is one of the first. *)
Theorem load_from_file_twice (filename file_format : string)
    (fs : gmap string (node bytes)) (h : gmap positive Person) (pb : Phonebook)
    (content : bytes) (data : list (string * gmap string pyval)) :
  fs !! filename = Some (File content) ->
  (file_format = "json" /\ json_load content = Some data) \/
  (file_format = "yaml" /\ yaml_load content = Some data) ->
  Forall has_names data.*2 ->
  exists h1 h2 new1 new2,
    load_from_file filename file_format fs h pb
    = (None, h1, {| contacts := contacts pb ++ new1 |}) /\
    load_from_file filename file_format fs h1 {| contacts := contacts pb ++ new1 |}
    = (None, h2, {| contacts := (contacts pb ++ new1) ++ new2 |}) /\
    length new1 = length data /\ length new2 = length data /\
    (fun c => fields (h2 !!! c)) <$> new1 = (fun c => fields (h2 !!! c)) <$> new2 /\
    (forall r, r ∈ new1 -> r ∉ new2).
Proof.
  intros Hfile Hparse Hnames.
  destruct (load_loop_appends data.*2 h pb Hnames)
    as (h1 & new1 & Hloop1 & Hsub1 & _ & Hall1).
  destruct (load_loop_appends data.*2 h1 {| contacts := contacts pb ++ new1 |} Hnames)
    as (h2 & new2 & Hloop2 & Hsub2 & _ & Hall2).
  assert (Hload : forall h0 pb0,
             load_from_file filename file_format fs h0 pb0 = load_loop data.*2 h0 pb0).
  { intros h0 pb0. unfold load_from_file, open_r, load_data. rewrite Hfile.
    by destruct Hparse as [[-> ->] | [-> ->]]. }
  exists h1, h2, new1, new2. rewrite !Hload. split_and!; [done | done | | | |].
  - apply Forall2_length in Hall1. by rewrite Hall1, length_fmap.
  - apply Forall2_length in Hall2. by rewrite Hall2, length_fmap.
  - rewrite (loaded_fields h1 h2 new2 data.*2 Hall2).
    apply (loaded_fields h h2). eapply Forall2_impl; [exact Hall1 |].
    intros r record [Hr1 Hr2]. split; [done |]. by eapply lookup_weaken.
  - intros r Hin1 Hin2.
    apply list_elem_of_lookup_1 in Hin1 as [i Hi], Hin2 as [j Hj].
    destruct (Forall2_lookup_l _ _ _ _ _ Hall1 Hi) as (? & _ & _ & Hlive).
    destruct (Forall2_lookup_l _ _ _ _ _ Hall2 Hj) as (? & _ & Hfresh & _).
    congruence.
Qed.

(** X15.  A file that holds what [save_to_file] wrote for contacts with
    their computed full names is stable: loading it into an empty
    directory and building the mapping to save again gives the same
    mapping, keys, values and order. *)
Theorem save_data_of_loaded (h h0 : gmap positive Person) (pb : Phonebook)
    (filename file_format : string) (fs : gmap string (node bytes))
    (content : bytes) :
  Forall (fun c => consistent (h !!! c)) (contacts pb) ->
  fs !! filename = Some (File content) ->
  (file_format = "json" /\ json_load content = Some (save_data h pb)) \/
  (file_format = "yaml" /\ yaml_load content = Some (save_data h pb)) ->
  exists h' pb',
    load_from_file filename file_format fs h0 Phonebook_init = (None, h', pb') /\
    save_data h' pb' = save_data h pb.
Proof.
  intros Hall Hfile Hparse.
  pose proof (save_data_entries h pb Hall) as Hentries.
  assert (Hnames : Forall has_names (save_data h pb).*2).
  { apply Forall_fmap. eapply Forall_impl; [exact Hentries |].
    intros [k v] (p & _ & [= -> ->]). apply dict_has_names. }
  destruct (load_loop_appends (save_data h pb).*2 h0 Phonebook_init Hnames)
    as (h' & new & Hloop & _ & _ & Hnew).
  exists h', {| contacts := new |}. split.
  - unfold load_from_file, open_r, load_data. rewrite Hfile.
    by destruct Hparse as [[-> ->] | [-> ->]].
  - assert (Hre : (fun r => (full_name (h' !!! r), __dict__ (h' !!! r))) <$> new
                  = save_data h pb).
    { apply resave_entries; [done |].
      eapply Forall2_impl; [exact Hnew |]. by intros r record [_ ?]. }
    assert ((fun c => full_name (h' !!! c)) <$> new = (save_data h pb).*1) as Hkeys.
    { rewrite <- Hre. by rewrite <- list_fmap_compose. }
    rewrite <- Hre. apply save_data_distinct. simpl.
    rewrite Hkeys. apply save_data_keys_NoDup.
Qed.

End MoreStorage.

Lemma search_finds_by_field_witness :
  jane_smith.1 ∈ contacts two_janes /\
  PyStr "555-1111" ∈ searched_fields (jane_doyle.2 !!! jane_smith.1) /\
  jane_smith.1 ∈ search_contacts jane_doyle.2 "555-1111" two_janes.
Proof.
  assert (Hin : jane_smith.1 ∈ contacts two_janes).
  { apply (bool_decide_unpack _). vm_compute. reflexivity. }
  assert (Hfield : PyStr "555-1111" ∈ searched_fields (jane_doyle.2 !!! jane_smith.1)).
  { apply (bool_decide_unpack _). vm_compute. reflexivity. }
  split_and!; [exact Hin | exact Hfield |].
  apply (search_finds_by_field jane_doyle.2 two_janes jane_smith.1 "555-1111" Hin Hfield).
  discriminate.
Defined.

Lemma search_refines_witness :
  contains (lower "jan") (lower "Jane S") = true /\
  search_contacts jane_doyle.2 "Jane S" two_janes
    `sublist_of` search_contacts jane_doyle.2 "jan" two_janes.
Proof.
  assert (Hq : contains (lower "jan") (lower "Jane S") = true) by reflexivity.
  split; [exact Hq |].
  exact (search_refines jane_doyle.2 "jan" "Jane S" two_janes Hq).
Defined.

Lemma load_from_file_stops_witness :
  exists key h' new,
    load_from_file (codec := wire_codec) "book.json" "json"
      {[ "book.json" := File (Text "json" (two_records ++ [("c", bad_record)])) ]}
      jane_doyle.2 two_janes
    = (Some (KeyError key), h', {| contacts := contacts two_janes ++ new |}) /\
    (key = "first_name" \/ key = "last_name") /\ bad_record !! key = None /\
    length new = 2.
Proof.
  destruct (load_from_file_stops (codec := wire_codec) "book.json" "json"
              {[ "book.json" := File (Text "json" (two_records ++ [("c", bad_record)])) ]}
              jane_doyle.2 two_janes (Text "json" (two_records ++ [("c", bad_record)]))
              two_records [] "c" bad_record)
    as (key & h' & new & Hload & Hkey & Hnone & Hlen & _).
  - reflexivity.
  - left. split; reflexivity.
  - repeat constructor; by eexists.
  - intros [_ [v Hv]]. vm_compute in Hv. discriminate Hv.
  - exists key, h', new. by split_and!.
Defined.

Lemma load_from_file_twice_witness :
  exists h1 h2 new1 new2,
    load_from_file (codec := wire_codec) "book.json" "json"
      {[ "book.json" := File (Text "json" two_records) ]} jane_doyle.2 two_janes
    = (None, h1, {| contacts := contacts two_janes ++ new1 |}) /\
    load_from_file (codec := wire_codec) "book.json" "json"
      {[ "book.json" := File (Text "json" two_records) ]} h1
      {| contacts := contacts two_janes ++ new1 |}
    = (None, h2, {| contacts := (contacts two_janes ++ new1) ++ new2 |}) /\
    length new1 = 2 /\ length new2 = 2.
Proof.
  destruct (load_from_file_twice (codec := wire_codec) "book.json" "json"
              {[ "book.json" := File (Text "json" two_records) ]}
              jane_doyle.2 two_janes (Text "json" two_records) two_records)
    as (h1 & h2 & new1 & new2 & Hload1 & Hload2 & Hlen1 & Hlen2 & _).
  - reflexivity.
  - left. split; reflexivity.
  - repeat constructor; by eexists.
  - exists h1, h2, new1, new2. by split_and!.
Defined.

Lemma save_data_of_loaded_witness :
  Forall (fun c => consistent (jane_doyle.2 !!! c)) (contacts two_janes) /\
  exists h' pb',
    load_from_file (codec := wire_codec) "book.json" "json"
      {[ "book.json" := File (Text "json" (save_data jane_doyle.2 two_janes)) ]}
      ∅ Phonebook_init
    = (None, h', pb') /\
    save_data h' pb' = save_data jane_doyle.2 two_janes.
Proof.
  assert (Hall : Forall (fun c => consistent (jane_doyle.2 !!! c)) (contacts two_janes)).
  { repeat constructor. }
  split; [exact Hall |].
  apply (save_data_of_loaded (codec := wire_codec) jane_doyle.2 ∅ two_janes
           "book.json" "json"
           {[ "book.json" := File (Text "json" (save_data jane_doyle.2 two_janes)) ]}
           (Text "json" (save_data jane_doyle.2 two_janes)) Hall).
  - reflexivity.
  - left. split; reflexivity.
Defined.

(** ** The command layer *)

Lemma print_stdin (text : string) (io : Console) : stdin (print text io) = stdin io.
Proof. reflexivity. Qed.

Lemma display_contact_info_stdin (h : gmap positive Person) (person : positive)
    (item_number : option nat) (io : Console) :
  stdin (display_contact_info h person item_number io) = stdin io.
Proof. unfold display_contact_info. by destruct item_number. Qed.

Lemma display_numbered_stdin (h : gmap positive Person) (i : nat)
    (l : list positive) (io : Console) :
  stdin (display_numbered h i l io) = stdin io.
Proof.
  revert i io. induction l as [|c l IH]; intros i io; simpl; [done |].
  by rewrite IH, display_contact_info_stdin.
Qed.

Section TargetContact.
Variable py_int : string -> option Z.

Lemma read_choice_spec (n : nat) (lines out : list string) :
  stdin (read_choice py_int n lines out).2 `suffix_of` lines /\
  match (read_choice py_int n lines out).1 with
  | inl e => e = EOFError /\ stdin (read_choice py_int n lines out).2 = []
  | inr choice => (1 <= choice <= Z.of_nat n)%Z
  end.
Proof.
  revert out. induction lines as [|line rest IH]; intros out; simpl; [done |].
  assert (Hrec : forall out',
    stdin (read_choice py_int n rest out').2 `suffix_of` line :: rest /\
    match (read_choice py_int n rest out').1 with
    | inl e => e = EOFError /\ stdin (read_choice py_int n rest out').2 = []
    | inr choice => (1 <= choice <= Z.of_nat n)%Z
    end).
  { intros out'. destruct (IH out') as [Hsuf Hres]. split; [| done].
    by apply suffix_cons_r. }
  destruct (py_int line) as [choice|]; [| apply Hrec].
  destruct ((1 <=? choice)%Z && (choice <=? Z.of_nat n)%Z) eqn:E; [| apply Hrec].
  simpl. split; [by apply suffix_cons_r | lia].
Qed.

Lemma read_confirmation_spec (lines out : list string) :
  stdin (read_confirmation lines out).2 `suffix_of` lines /\
  match (read_confirmation lines out).1 with
  | inl e => e = EOFError /\ stdin (read_confirmation lines out).2 = []
  | inr confirmation => is_answer confirmation = true
  end.
Proof.
  revert out. induction lines as [|line rest IH]; intros out; simpl; [done |].
  destruct (is_answer line) eqn:E; simpl.
  - split; [by apply suffix_cons_r | done].
  - destruct (IH (out ++ [confirm_prompt]
                      ++ [style_PURPLE +:+ "Not a valid entry!" +:+ style_END]))
      as [Hsuf Hres].
    rewrite app_assoc in Hsuf, Hres. split; [by apply suffix_cons_r | done].
Qed.

Lemma choose_contact_spec (h : gmap positive Person) (first : positive)
    (others : list positive) (io : Console) :
  stdin (choose_contact py_int h (first :: others) first io).2 `suffix_of` stdin io /\
  match (choose_contact py_int h (first :: others) first io).1 with
  | inl e => e = EOFError /\
             stdin (choose_contact py_int h (first :: others) first io).2 = []
  | inr contact => contact ∈ first :: others
  end.
Proof.
  unfold choose_contact. set (found := first :: others).
  destruct (length found =? 1)%nat.
  - cbn [fst snd]. split; [by rewrite display_contact_info_stdin | apply list_elem_of_here].
  - set (io1 := display_numbered h 1 found _).
    pose proof (read_choice_spec (length found) (stdin io1) (stdout io1)) as Hspec.
    assert (Hio1 : stdin io1 = stdin io).
    { unfold io1. by rewrite display_numbered_stdin. }
    destruct (read_choice py_int (length found) (stdin io1) (stdout io1))
      as [[e | choice] io2]; cbn [fst snd] in *;
      destruct Hspec as [Hsuf Hres]; rewrite Hio1 in Hsuf; [done |].
    destruct (found !! Z.to_nat (choice - 1)) as [contact|] eqn:Hlook; cbn [fst snd].
    + split; [done | by eapply list_elem_of_lookup_2].
    + apply lookup_ge_None in Hlook. lia.
Qed.

Lemma confirm_contact_spec (contact : positive) (io : Console) :
  stdin (confirm_contact contact io).2 `suffix_of` stdin io /\
  match (confirm_contact contact io).1 with
  | inl e => e = EOFError /\ stdin (confirm_contact contact io).2 = []
  | inr None => True
  | inr (Some chosen) => chosen = contact
  end.
Proof.
  unfold confirm_contact.
  pose proof (read_confirmation_spec (stdin io) (stdout io)) as [Hsuf Hres].
  destruct (read_confirmation (stdin io) (stdout io)) as [[e | confirmation] io1];
    simpl in *; [done |].
  by destruct (is_yes confirmation).
Qed.

(** What [get_target_contact] can end with. *)
Lemma get_target_contact_spec (h : gmap positive Person) (pb : Phonebook)
    (name_info : list string) (io : Console) :
  stdin (get_target_contact py_int h pb name_info io).2 `suffix_of` stdin io /\
  match (get_target_contact py_int h pb name_info io).1 with
  | inl e => e = EOFError /\ stdin (get_target_contact py_int h pb name_info io).2 = []
  | inr None => True
  | inr (Some contact) =>
      contact ∈ search_contacts h (join_space name_info) pb /\ contact ∈ contacts pb
  end.
Proof.
  assert (Hsub : forall c, c ∈ search_contacts h (join_space name_info) pb ->
                           c ∈ contacts pb).
  { intros c. rewrite search_contacts_filter, list_elem_of_filter. tauto. }
  unfold get_target_contact.
  destruct (search_contacts h (join_space name_info) pb) as [|first others] eqn:Hfound.
  { done. }
  pose proof (choose_contact_spec h first others io) as [Hsuf Hres].
  destruct (choose_contact py_int h (first :: others) first io) as [[e | contact] io1];
    simpl in *; [done |].
  pose proof (confirm_contact_spec contact io1) as [Hsuf' Hres'].
  destruct (confirm_contact contact io1) as [[e | [chosen|]] io2]; simpl in *.
  - split; [by etransitivity | done].
  - subst chosen. split; [by etransitivity |]. split; [done | by apply Hsub].
  - split; [by etransitivity | done].
Qed.

(** X16.  [get_target_contact] either returns nothing or returns one of
    the contacts that the search for the joined words found, so a
    contact of the directory.  It reads lines only from the front of the
    input, it never indexes the list of results out of range, and the
    only exception it can raise is [EOFError], when the input has run
    out. *)
Theorem get_target_contact_result (h : gmap positive Person) (pb : Phonebook)
    (name_info : list string) (io : Console) :
  stdin (get_target_contact py_int h pb name_info io).2 `suffix_of` stdin io /\
  match (get_target_contact py_int h pb name_info io).1 with
  | inl e => e = EOFError /\ stdin (get_target_contact py_int h pb name_info io).2 = []
  | inr None => True
  | inr (Some contact) =>
      contact ∈ search_contacts h (join_space name_info) pb /\ contact ∈ contacts pb
  end.
Proof.
  unfold get_target_contact.
  destruct (search_contacts h (join_space name_info) pb) as [|first others] eqn:Hfound.
  { done. }
  pose proof (choose_contact_spec h first others io) as [Hsuf Hres].
  destruct (choose_contact py_int h (first :: others) first io) as [[e | contact] io1];
    simpl in *; [done |].
  pose proof (confirm_contact_spec contact io1) as [Hsuf' Hres'].
  destruct (confirm_contact contact io1) as [[e | [chosen|]] io2]; simpl in *.
  - split; [by etransitivity | done].
  - subst chosen. split; [by etransitivity |]. split; [done |].
    rewrite <- Hfound in Hres.
    rewrite search_contacts_filter in Hres. by apply list_elem_of_filter in Hres as [_ ?].
  - split; [by etransitivity | done].
Qed.

End TargetContact.

Section RemoveCommand.
Variable py_int : string -> option Z.

Lemma or_empty_not_None (v : pyval) : or_empty v <> PyNone.
Proof. by destruct v as [|[|]]. Qed.

Lemma py_truthy_or_empty (v : pyval) : py_truthy (or_empty v) = py_truthy v.
Proof. by destruct v as [|[|]]. Qed.

(** X17.  The remove command never fails for a contact that is not
    found: the contact it removes was found by the search, so it is in
    the directory.  It ends either with [EOFError], the directory
    untouched, or normally, the directory then being untouched (nothing
    found, or the removal not confirmed) or shorter by the one contact
    chosen among the results of the search. *)
Theorem api_remove_contact_result (args : Namespace) (h : gmap positive Person)
    (pb : Phonebook) (io : Console) (name_info : list string) :
  arg_remove args = Some name_info ->
  match api_remove_contact py_int args h pb io with
  | (Some e, pb', _) => e = EOFError /\ pb' = pb
  | (None, pb', _) =>
      pb' = pb \/
      exists contact,
        contact ∈ search_contacts h (join_space name_info) pb /\
        remove_contact contact pb = (None, pb') /\
        S (length (contacts pb')) = length (contacts pb)
  end.
Proof.
  intros Harg. unfold api_remove_contact. rewrite Harg.
  pose proof (get_target_contact_spec py_int h pb name_info io) as [_ Hres].
  destruct (get_target_contact py_int h pb name_info io) as [[e | [contact|]] io1];
    simpl in Hres.
  - by destruct Hres as [-> _].
  - destruct Hres as [Hfound Hin].
    destruct (py_list_remove_Some _ _ Hin) as (l1 & l2 & Heq & _ & Hsome).
    assert (Hrm : remove_contact contact pb = (None, {| contacts := l1 ++ l2 |})).
    { unfold remove_contact. by rewrite Hsome. }
    rewrite Hrm. right. exists contact. split_and!; [done | done |].
    simpl. rewrite Heq, !length_app. simpl. lia.
  - by left.
Qed.

Lemma ask_names_spec (lines out : list string) :
  match (ask_names lines out).1 with
  | inl e => e = EOFError
  | inr (first, last) => str_truthy first || str_truthy last = true
  end.
Proof.
  assert (Hall : forall n lines, length lines <= n -> forall out,
    match (ask_names lines out).1 with
    | inl e => e = EOFError
    | inr (first, last) => str_truthy first || str_truthy last = true
    end); [| by eapply Hall].
  clear. induction n as [|n IH]; intros lines Hlen out.
  - by destruct lines; [| simpl in Hlen; lia].
  - destruct lines as [|first [|last rest]]; [done | done |]. simpl.
    destruct (str_truthy first) eqn:Hf; simpl; [by rewrite Hf |].
    destruct (str_truthy last) eqn:Hl; simpl; [by rewrite Hf, Hl |].
    apply IH. simpl in Hlen. lia.
Qed.

Lemma ask_phone_address_spec (lines out : list string) :
  match (ask_phone_address lines out).1 with
  | inl e => e = EOFError
  | inr (ph, addr) => str_truthy ph || str_truthy addr = true
  end.
Proof.
  assert (Hall : forall n lines, length lines <= n -> forall out,
    match (ask_phone_address lines out).1 with
    | inl e => e = EOFError
    | inr (ph, addr) => str_truthy ph || str_truthy addr = true
    end); [| by eapply Hall].
  clear. induction n as [|n IH]; intros lines Hlen out.
  - by destruct lines; [| simpl in Hlen; lia].
  - destruct lines as [|ph [|addr rest]]; [done | done |]. simpl.
    destruct (str_truthy ph) eqn:Hf; simpl; [by rewrite Hf |].
    destruct (str_truthy addr) eqn:Hl; simpl; [by rewrite Hf, Hl |].
    apply IH. simpl in Hlen. lia.
Qed.

End RemoveCommand.

Lemma or_empty_str (v : pyval) : exists s, or_empty v = PyStr s.
Proof. destruct v as [|[|c s]]; by eexists. Qed.

Lemma set_details_strings (first last ph addr : pyval) (p : Person) :
  exists f l n a,
    fields (set_details first last ph addr p) = (PyStr f, PyStr l, PyStr n, PyStr a).
Proof.
  destruct (or_empty_str first) as [f Hf], (or_empty_str last) as [l Hl],
    (or_empty_str ph) as [n Hn], (or_empty_str addr) as [a Ha].
  exists f, l, n, a. unfold fields, set_details. simpl. by rewrite Hf, Hl, Hn, Ha.
Qed.

Section UpdateCommand.
Variable py_int : string -> option Z.

(** X18.  The update command ends either with [EOFError], or normally
    with nothing changed (nothing found, or the choice not confirmed),
    or normally after it has changed one contact, chosen among the
    results of the search.  That object then has four strings as first
    name, last name, phone and address, of which a name and one of phone
    and address are not empty, and the full name it had; the directory
    has the length it had and holds the contact.  No exception of the
    directory is raised and no other object is touched. *)
Theorem api_update_contact_result (args : Namespace) (h : gmap positive Person)
    (pb : Phonebook) (io : Console) (name_info : list string) :
  arg_update args = Some name_info ->
  match api_update_contact py_int args h pb io with
  | (Some e, h', pb', _) => e = EOFError /\ h' = h /\ pb' = pb
  | (None, h', pb', _) =>
      (h' = h /\ pb' = pb) \/
      exists contact p,
        contact ∈ search_contacts h (join_space name_info) pb /\
        h' = <[contact := p]> h /\
        full_name p = full_name (h !!! contact) /\
        (exists f l n a, fields p = (PyStr f, PyStr l, PyStr n, PyStr a)) /\
        py_truthy (first_name p) || py_truthy (last_name p) = true /\
        py_truthy (phone p) || py_truthy (address p) = true /\
        update_contact h' contact pb = (None, pb') /\
        contact ∈ contacts pb' /\
        length (contacts pb') = length (contacts pb)
  end.
Proof.
  intros Harg. unfold api_update_contact. rewrite Harg.
  pose proof (get_target_contact_spec py_int h pb name_info io) as [_ Hres].
  destruct (get_target_contact py_int h pb name_info io) as [[e | [contact|]] io1];
    simpl in Hres; [by destruct Hres as [-> _] | | by left].
  destruct Hres as [Hfound Hin].
  (* the names *)
  set (names := if negb (py_truthy (arg_first_name args))
                   && negb (py_truthy (arg_last_name args)) then _ else _).
  assert (Hnames : match names.1 with
                   | inl e => e = EOFError
                   | inr (first, last) => py_truthy first || py_truthy last = true
                   end).
  { unfold names.
    destruct (py_truthy (arg_first_name args)) eqn:Hf; simpl; [by rewrite Hf |].
    destruct (py_truthy (arg_last_name args)) eqn:Hl; simpl; [by rewrite Hf, Hl |].
    pose proof (ask_names_spec (stdin io1) (stdout io1)) as Hask.
    by destruct (ask_names (stdin io1) (stdout io1)) as [[e | [first last]] io2]. }
  destruct names as [[e | [first last]] io2]; simpl in Hnames; [by subst e |].
  (* phone and address *)
  set (details := if negb (py_truthy (arg_phone args))
                     && negb (py_truthy (arg_address args)) then _ else _).
  assert (Hdetails : match details.1 with
                     | inl e => e = EOFError
                     | inr (ph, addr) => py_truthy ph || py_truthy addr = true
                     end).
  { unfold details.
    destruct (py_truthy (arg_phone args)) eqn:Hf; simpl; [by rewrite Hf |].
    destruct (py_truthy (arg_address args)) eqn:Hl; simpl; [by rewrite Hf, Hl |].
    pose proof (ask_phone_address_spec (stdin io2) (stdout io2)) as Hask.
    by destruct (ask_phone_address (stdin io2) (stdout io2)) as [[e | [ph addr]] io3]. }
  destruct details as [[e | [ph addr]] io3]; simpl in Hdetails; [by subst e |].
  (* the update *)
  set (p := set_details first last ph addr (h !!! contact)).
  destruct (update_contact_member (<[contact := p]> h) contact pb Hin)
    as (l1 & r & l2 & Heq & _ & _ & Hup).
  rewrite Hup. right. exists contact, p. split_and!; try done.
  - apply set_details_strings.
  - unfold p. simpl. by rewrite !py_truthy_or_empty.
  - unfold p. simpl. by rewrite !py_truthy_or_empty.
  - simpl. apply elem_of_app. right. apply list_elem_of_here.
  - simpl. by rewrite Heq, !length_app.
Qed.

End UpdateCommand.

(** X19.  The update command leaves a renamed contact under its old full
    name: after the assignments to the four details and the update of
    the directory, the full name of the contact is what it was, and the
    search for that full name still finds the contact. *)
Theorem renamed_contact_keeps_full_name (h : gmap positive Person) (pb pb' : Phonebook)
    (contact : positive) (first last ph addr : pyval) :
  contact ∈ contacts pb ->
  full_name (h !!! contact) <> "" ->
  update_contact (<[contact := set_details first last ph addr (h !!! contact)]> h)
                 contact pb = (None, pb') ->
  full_name ((<[contact := set_details first last ph addr (h !!! contact)]> h)
               !!! contact) = full_name (h !!! contact) /\
  contact ∈ search_contacts
              (<[contact := set_details first last ph addr (h !!! contact)]> h)
              (full_name (h !!! contact)) pb'.
Proof.
  intros Hin Hne Hup.
  set (h' := <[contact := _]> h) in *.
  assert (Hfull : full_name (h' !!! contact) = full_name (h !!! contact)).
  { unfold h'. by rewrite lookup_total_insert_eq. }
  split; [done |].
  destruct (update_contact_inv _ _ _ _ Hup) as (l1 & r & l2 & _ & _ & _ & Heq').
  apply search_contacts_finds; [| | done].
  - rewrite Heq'. apply elem_of_app. right. apply list_elem_of_here.
  - unfold searched_fields. rewrite Hfull. set_solver.
Qed.

(** ** The add command *)

Lemma ask_pair_spec (prompt1 prompt2 : string) (v1 v2 : pyval) (io : Console) :
  match ask_pair prompt1 prompt2 v1 v2 io with
  | (inl e, _) => e = EOFError
  | (inr (w1, w2), io') =>
      (py_truthy v1 || py_truthy v2 = true /\ w1 = v1 /\ w2 = v2 /\ io' = io) \/
      (exists a b, w1 = PyStr a /\ w2 = PyStr b /\ stdin io = a :: b :: stdin io')
  end.
Proof.
  unfold ask_pair, ask_if_missing, input.
  destruct (py_truthy v1) eqn:H1; simpl; [by left |].
  destruct (py_truthy v2) eqn:H2; simpl; [by left |].
  rewrite ?H1. destruct (stdin io) as [|a lines] eqn:Hin; simpl; [done |].
  rewrite ?H2. destruct lines as [|b rest]; simpl; [done |].
  right. by exists a, b.
Qed.

(** One pass more than there are lines of input is enough for the loop
    of [add_contact], and what it ends with is [EOFError] or four
    details of which a name and one of phone and address are not
    empty. *)
Lemma add_loop_spec (fuel : nat) (first last ph addr : pyval) (io : Console) :
  length (stdin io) < fuel ->
  exists res io',
    add_loop fuel first last ph addr io = Some (res, io') /\
    match res with
    | inl e => e = EOFError
    | inr (f, l, n, a) =>
        (py_truthy f || py_truthy l) && (py_truthy n || py_truthy a) = true
    end.
Proof.
  revert first last ph addr io.
  induction fuel as [|fuel IH]; intros first last ph addr io Hfuel; [lia |].
  cbn [add_loop].
  pose proof (ask_pair_spec (style_CYAN +:+ "Enter the First name: " +:+ style_END)
                (style_CYAN +:+ "Enter the Last name: " +:+ style_END)
                first last io) as Hnames.
  destruct (ask_pair _ _ first last io) as [[e | [f l]] io1].
  { subst e. by eexists _, _. }
  pose proof (ask_pair_spec (style_CYAN +:+ "Enter the Phone number: " +:+ style_END)
                (style_CYAN +:+ "Enter the Address: " +:+ style_END)
                ph addr io1) as Hdetails.
  destruct (ask_pair _ _ ph addr io1) as [[e | [n a]] io2].
  { subst e. by eexists _, _. }
  destruct ((py_truthy f || py_truthy l) && (py_truthy n || py_truthy a)) eqn:Hok.
  { by eexists _, _. }
  apply IH. rewrite print_stdin.
  destruct Hnames as [(Ht1 & -> & -> & ->) | (x & y & -> & -> & Hin1)];
    destruct Hdetails as [(Ht2 & -> & -> & ->) | (z & w & -> & -> & Hin2)].
  - rewrite Ht1, Ht2 in Hok. discriminate Hok.
  - rewrite Hin2 in Hfuel. simpl in Hfuel. lia.
  - rewrite Hin1 in Hfuel. simpl in Hfuel. lia.
  - rewrite Hin1, Hin2 in Hfuel. simpl in Hfuel. lia.
Qed.

(** X20.  The add command always comes to an end.  It ends with
    [EOFError] when the input runs out, heap and directory untouched, or
    it appends one new object to the directory: its first name, last
    name, phone and address are strings, a name and one of phone and
    address are not empty, and its full name is the one computed from
    the two names.  The contacts that were there keep their places. *)
Theorem api_add_contact_result (args : Namespace) (h : gmap positive Person)
    (pb : Phonebook) (io : Console) :
  match api_add_contact args h pb io with
  | None => False
  | Some (Some e, h', pb', _) => e = EOFError /\ h' = h /\ pb' = pb
  | Some (None, h', pb', _) =>
      exists contact p,
        h !! contact = None /\ h' = <[contact := p]> h /\
        contacts pb' = contacts pb ++ [contact] /\
        consistent p /\
        (exists f l n a, fields p = (PyStr f, PyStr l, PyStr n, PyStr a)) /\
        py_truthy (first_name p) || py_truthy (last_name p) = true /\
        py_truthy (phone p) || py_truthy (address p) = true
  end.
Proof.
  unfold api_add_contact.
  destruct (add_loop_spec (S (length (stdin io))) (arg_first_name args)
              (arg_last_name args) (arg_phone args) (arg_address args) io)
    as (res & io' & -> & Hres); [lia |].
  destruct res as [e | [[[f l] n] a]]; [by subst e |].
  apply andb_true_iff in Hres as [Hname Hdetail].
  unfold Person_new, alloc.
  exists (fresh (dom h)), (Person_init (or_empty f) (or_empty l) (or_empty n) (or_empty a)).
  split_and!; try done.
  - apply not_elem_of_dom, is_fresh.
  - destruct (or_empty_str f) as [? ->], (or_empty_str l) as [? ->],
      (or_empty_str n) as [? ->], (or_empty_str a) as [? ->]. by eexists _, _, _, _.
  - simpl. by rewrite !py_truthy_or_empty.
  - simpl. by rewrite !py_truthy_or_empty.
Qed.

(** ** The HTML page *)

Lemma append_foldl {A : Type} (f : A -> string) (l : list A) (init : string) :
  foldl (fun html x => html +:+ f x) init l
  = init +:+ foldr (fun x rest => f x +:+ rest) "" l.
Proof.
  revert init. induction l as [|x l IH]; intros init; simpl.
  - by rewrite append_nil_r.
  - by rewrite IH, append_assoc.
Qed.

Lemma contains_app_l (q a s : string) :
  contains q s = true -> contains q (a +:+ s) = true.
Proof.
  rewrite !contains_spec. intros (x & y & ->). exists (a +:+ x), y.
  by rewrite append_assoc.
Qed.

Lemma contains_app_r (q s b : string) :
  contains q s = true -> contains q (s +:+ b) = true.
Proof.
  rewrite !contains_spec. intros (x & y & ->). exists x, (y +:+ b).
  by rewrite !append_assoc.
Qed.

Lemma contains_here (q b : string) : contains q (q +:+ b) = true.
Proof. apply contains_app_r, contains_refl. Qed.

Lemma contact_html_holds (p : Person) (field : pyval) :
  field ∈ searched_fields p -> contains (py_format field) (contact_html p) = true.
Proof.
  unfold searched_fields. rewrite !elem_of_cons, elem_of_nil.
  unfold contact_html.
  intros [-> | [-> | [-> | [-> | [-> | []]]]]]; simpl py_format;
    repeat first [ apply contains_here | apply contains_app_l ].
Qed.

(** X21.  The HTML page holds the text of every contact as it is, with
    no escaping: the full name and the printed first name, last name,
    phone and address of each contact of the directory occur in the page
    character for character, whatever characters they are. *)
Theorem html_holds_fields_verbatim (h : gmap positive Person) (pb : Phonebook)
    (contact : positive) (field : pyval) :
  contact ∈ contacts pb ->
  field ∈ searched_fields (h !!! contact) ->
  contains (py_format field) (generate_contacts_html h pb) = true.
Proof.
  intros Hin Hfield. unfold generate_contacts_html.
  rewrite (append_foldl (fun c => contact_html (h !!! c))).
  apply contains_app_r, contains_app_l.
  induction (contacts pb) as [|c l IH]; [by apply elem_of_nil in Hin |].
  cbn [foldr]. apply elem_of_cons in Hin as [<- | Hin].
  - by apply contains_app_r, contact_html_holds.
  - by apply contains_app_l, IH.
Qed.

(** ** Names on the command line *)

(** X22.  The words of a name select the contact: for a contact of the
    directory whose first and last name are strings and whose full name
    is the computed one, the search for the two names joined by a space,
    which is what the remove and update commands run on their words,
    finds the contact. *)
Theorem search_by_name_words (h : gmap positive Person) (pb : Phonebook)
    (contact : positive) (first last : string) :
  contact ∈ contacts pb ->
  first_name (h !!! contact) = PyStr first ->
  last_name (h !!! contact) = PyStr last ->
  consistent (h !!! contact) ->
  contact ∈ search_contacts h (join_space [first; last]) pb.
Proof.
  intros Hin Hfirst Hlast Hfull. unfold consistent in Hfull.
  rewrite Hfirst, Hlast in Hfull. simpl in Hfull.
  apply search_contacts_finds; [done | |].
  - unfold searched_fields. rewrite Hfull. set_solver.
  - cbn [join_space]. by destruct first.
Qed.

Lemma search_by_name_words_witness :
  jane_doyle.1 ∈ contacts two_janes /\
  jane_doyle.1 ∈ search_contacts jane_doyle.2 (join_space ["Jane"; "Doyle"]) two_janes.
Proof.
  assert (Hin : jane_doyle.1 ∈ contacts two_janes).
  { apply (bool_decide_unpack _). vm_compute. reflexivity. }
  split; [exact Hin |].
  apply (search_by_name_words jane_doyle.2 two_janes jane_doyle.1 "Jane" "Doyle" Hin);
    reflexivity.
Defined.

(** ** The display methods *)

Lemma dict_items_dict (p : Person) : list_to_map (dict_items p) = __dict__ p.
Proof. reflexivity. Qed.

Lemma display_contact_info_stdout (h : gmap positive Person) (person : positive)
    (item_number : option nat) (io : Console) :
  stdout (display_contact_info h person item_number io)
  = stdout io
    ++ NL :: match item_number with
             | Some n => [style_GREEN +:+ "Item number: " +:+ pretty n +:+ style_END]
             | None => []
             end
    ++ ((fun '(item, value) => attribute_line item value) <$> dict_items (h !!! person)).
Proof.
  unfold display_contact_info, dict_items. destruct item_number; simpl;
    by rewrite <- !app_assoc.
Qed.

(** X23.  [display_contact_info] reads no input and writes, after an
    empty line and, when a number is given, the line of the item number,
    one line for each attribute of the contact in the order
    [first_name], [last_name], [phone], [address], [full_name]: a label
    of exactly twenty characters, then the value as [str.format] prints
    it, so that the values are aligned in one column. *)
Theorem display_contact_info_lines (h : gmap positive Person) (person : positive)
    (item_number : option nat) (io : Console) :
  stdin (display_contact_info h person item_number io) = stdin io /\
  exists lines,
    stdout (display_contact_info h person item_number io)
    = stdout io
      ++ NL :: match item_number with
               | Some n => [style_GREEN +:+ "Item number: " +:+ pretty n +:+ style_END]
               | None => []
               end
      ++ lines /\
    Forall2 (fun line value =>
               exists label, String.length label = 20 /\
                             line = label +:+ py_format value)
            lines (dict_items (h !!! person)).*2.
Proof.
  split; [apply display_contact_info_stdin |].
  eexists. split; [apply display_contact_info_stdout |].
  unfold dict_items. simpl. unfold attribute_line.
  repeat constructor.
  - by exists "       first name : ".
  - by exists "        last name : ".
  - by exists "            phone : ".
  - by exists "          address : ".
  - by exists "        full name : ".
Qed.


(** ** The commands at work *)

Lemma api_remove_contact_result_witness :
  arg_remove remove_jane = Some ["jane"; "smith"] /\
  match api_remove_contact digits_int remove_jane jane_doyle.2 two_janes
          {| stdin := ["yes"]; stdout := [] |} with
  | (Some e, pb', _) => e = EOFError /\ pb' = two_janes
  | (None, pb', _) =>
      pb' = two_janes \/
      exists contact,
        contact ∈ search_contacts jane_doyle.2 (join_space ["jane"; "smith"]) two_janes /\
        remove_contact contact two_janes = (None, pb') /\
        S (length (contacts pb')) = length (contacts two_janes)
  end.
Proof.
  split; [reflexivity |].
  apply (api_remove_contact_result digits_int remove_jane jane_doyle.2 two_janes
           {| stdin := ["yes"]; stdout := [] |} ["jane"; "smith"]).
  reflexivity.
Defined.

Example remove_jane_smith :
  (api_remove_contact digits_int remove_jane jane_doyle.2 two_janes
     {| stdin := ["maybe"; "Y"]; stdout := [] |}).1
  = (None, {| contacts := [jane_doyle.1] |}).
Proof. vm_compute. reflexivity. Qed.

Example remove_without_answer :
  (api_remove_contact digits_int remove_jane jane_doyle.2 two_janes
     {| stdin := ["maybe"]; stdout := [] |}).1
  = (Some EOFError, two_janes).
Proof. vm_compute. reflexivity. Qed.

Lemma api_update_contact_result_witness :
  arg_update rename_jane = Some ["jane"; "smith"] /\
  match api_update_contact digits_int rename_jane jane_doyle.2 two_janes
          {| stdin := ["yes"]; stdout := [] |} with
  | (Some e, h', pb', _) => e = EOFError /\ h' = jane_doyle.2 /\ pb' = two_janes
  | (None, h', pb', _) =>
      (h' = jane_doyle.2 /\ pb' = two_janes) \/
      exists contact p,
        contact ∈ search_contacts jane_doyle.2 (join_space ["jane"; "smith"]) two_janes /\
        h' = <[contact := p]> jane_doyle.2 /\
        full_name p = full_name (jane_doyle.2 !!! contact) /\
        (exists f l n a, fields p = (PyStr f, PyStr l, PyStr n, PyStr a)) /\
        py_truthy (first_name p) || py_truthy (last_name p) = true /\
        py_truthy (phone p) || py_truthy (address p) = true /\
        update_contact h' contact two_janes = (None, pb') /\
        contact ∈ contacts pb' /\
        length (contacts pb') = length (contacts two_janes)
  end.
Proof.
  split; [reflexivity |].
  apply (api_update_contact_result digits_int rename_jane jane_doyle.2 two_janes
           {| stdin := ["yes"]; stdout := [] |} ["jane"; "smith"]).
  reflexivity.
Defined.

Example rename_jane_smith :
  (api_update_contact digits_int rename_jane jane_doyle.2 two_janes
     {| stdin := ["yes"]; stdout := [] |}).1
  = (None, renamed_heap, two_janes).
Proof. vm_compute. reflexivity. Qed.

Lemma renamed_contact_keeps_full_name_witness :
  update_contact renamed_heap jane_smith.1 two_janes = (None, two_janes) /\
  full_name (renamed_heap !!! jane_smith.1) = "Jane Smith" /\
  jane_smith.1 ∈ search_contacts renamed_heap "Jane Smith" two_janes.
Proof.
  assert (Hup : update_contact renamed_heap jane_smith.1 two_janes = (None, two_janes))
    by (vm_compute; reflexivity).
  split; [exact Hup |].
  apply (renamed_contact_keeps_full_name jane_doyle.2 two_janes two_janes jane_smith.1
           (PyStr "John") (PyStr "Mcenzy") (PyStr "9876543210") PyNone).
  - apply (bool_decide_unpack _). vm_compute. reflexivity.
  - vm_compute. discriminate.
  - exact Hup.
Defined.

(** The renamed contact is not found by its new full name. *)
Example renamed_contact_not_found_by_new_name :
  first_name (renamed_heap !!! jane_smith.1) = PyStr "John" /\
  last_name (renamed_heap !!! jane_smith.1) = PyStr "Mcenzy" /\
  search_contacts renamed_heap "John Mcenzy" two_janes = [].
Proof. vm_compute. by split_and!. Qed.

Lemma html_holds_fields_verbatim_witness :
  jane_smith.1 ∈ contacts two_janes /\
  contains "1 Oak St" (generate_contacts_html jane_doyle.2 two_janes) = true.
Proof.
  assert (Hin : jane_smith.1 ∈ contacts two_janes).
  { apply (bool_decide_unpack _). vm_compute. reflexivity. }
  split; [exact Hin |].
  apply (html_holds_fields_verbatim jane_doyle.2 two_janes jane_smith.1
           (PyStr "1 Oak St") Hin).
  apply (bool_decide_unpack _). vm_compute. reflexivity.
Defined.

Example choose_second_jane :
  (get_target_contact digits_int jane_doyle.2 two_janes ["jane"]
     {| stdin := ["3"; "x"; "2"; "maybe"; "Y"; "left"]; stdout := [] |}).1
  = inr (Some jane_doyle.1) /\
  stdin (get_target_contact digits_int jane_doyle.2 two_janes ["jane"]
           {| stdin := ["3"; "x"; "2"; "maybe"; "Y"; "left"]; stdout := [] |}).2
  = ["left"].
Proof. vm_compute. by split. Qed.

Example add_from_arguments :
  match api_add_contact rename_jane jane_doyle.2 two_janes
          {| stdin := []; stdout := [] |} with
  | Some (None, h', pb', _) =>
      contacts pb' = [jane_smith.1; jane_doyle.1; 3%positive] /\
      h' !! 3%positive
      = Some (Person_init (PyStr "John") (PyStr "Mcenzy") (PyStr "9876543210") (PyStr ""))
  | _ => False
  end.
Proof. vm_compute. by split. Qed.
